(** * birthday-wish-bot: the gatekeeper of [public/script.js] and the relay
      of [server.js]

    A shallow embedding of the two state machines of the repository:

    - the client-side gatekeeper ([processInput] in [public/script.js]),
      which holds the challenge [stage] and decides locally whether an answer
      advances it;
    - the server-side relay ([sendMessageWithRetry], [saveMessage] and the
      Express handlers), in its three variants: [server.js] (Knex and
      PostgreSQL), and the two SQLite variants kept in the repository.

    Conventions.  JavaScript numbers that the code uses as integers are [Z].
    A text is a [string]: the bytes of its UTF-8 encoding, the text being
    well formed (no lone surrogate), so that equality, concatenation and
    [includes] on the bytes are those of the code units.  The built-ins
    [String.prototype.trim] and [String.prototype.toLowerCase] belong to the
    runtime, not to the repository, and follow the Unicode tables
    ([trim] strips U+00A0, U+3000, U+FEFF and the rest of the white space
    of ECMAScript; [toLowerCase] folds U+212A to [k] and lowers a sigma by
    its context): the client is parametrised by them, and what is proved of
    it holds whatever they compute.  The DOM, the network, the data base
    and the upstream chat service are outside the program: what the code
    does to them is recorded as a list of actions (client) or events
    (server), and what they answer is read from scripts held in the state. *)

From Stdlib Require Import ZArith List String Ascii Bool Lia Sorted.
Import ListNotations.

Open Scope string_scope.
Open Scope Z_scope.

(** ** Texts of ASCII characters

    On a text whose characters are all ASCII the two built-ins of the
    runtime are the functions below: [trim] strips TAB, LF, VT, FF, CR and
    SPACE from both ends, and [toLowerCase] maps [A]-[Z] to [a]-[z].  They
    are not the built-ins on other texts, and no definition of the client
    uses them: they serve to run the client on ASCII examples. *)

Module AsciiText.

(** The white space among the ASCII characters. *)
Definition isWhiteSpace (c : ascii) : bool :=
  let n := nat_of_ascii c in
  (Nat.leb 9 n && Nat.leb n 13) || Nat.eqb n 32.

Fixpoint trimStart (s : string) : string :=
  match s with
  | EmptyString => EmptyString
  | String c s' => if isWhiteSpace c then trimStart s' else s
  end.

Fixpoint reverse (s : string) : string :=
  match s with
  | EmptyString => EmptyString
  | String c s' => reverse s' ++ String c EmptyString
  end.

Definition trimEnd (s : string) : string := reverse (trimStart (reverse s)).

Definition trim (s : string) : string := trimEnd (trimStart s).

Definition lowerChar (c : ascii) : ascii :=
  let n := nat_of_ascii c in
  if Nat.leb 65 n && Nat.leb n 90 then ascii_of_nat (n + 32) else c.

Fixpoint toLowerCase (s : string) : string :=
  match s with
  | EmptyString => EmptyString
  | String c s' => String (lowerChar c) (toLowerCase s')
  end.

(** A text of ASCII white space only. *)
Fixpoint allWhite (s : string) : bool :=
  match s with
  | EmptyString => true
  | String c s' => isWhiteSpace c && allWhite s'
  end.

End AsciiText.

(** ** String operations that do not depend on the Unicode tables *)

Module JsString.

(** [startsWith s k]: [k] is a prefix of [s]. *)
Fixpoint startsWith (s k : string) {struct k} : bool :=
  match k with
  | EmptyString => true
  | String a k' =>
      match s with
      | EmptyString => false
      | String b s' => Ascii.eqb a b && startsWith s' k'
      end
  end.

(** [s.includes(k)]: [k] occurs in [s] at some position; the empty string
    occurs in every string. *)
Fixpoint includes (s k : string) : bool :=
  startsWith s k ||
  match s with
  | EmptyString => false
  | String _ s' => includes s' k
  end.

(** The property [includes] decides. *)
Definition Substring (k s : string) : Prop :=
  exists pre post, s = pre ++ k ++ post.

(** The double quote, which the instructions sent to the relay contain. *)
Definition dquote : string := String "034"%char EmptyString.

End JsString.

Import JsString.

(** ** The client: [public/script.js] *)

Module Script.

Definition BACKEND_URL : string := "http://localhost:3000/api/chat".

Definition FINAL_IMAGE_URL : string := "[LINK TO YOUR BIRTHDAY IMAGE/GIF HERE]".
Definition FRIEND_NAME : string := "[Friend's Name]".
Definition YOUR_NAME : string := "[Your Name]".
Definition FINAL_MESSAGE : string :=
  "ACCESS GRANTED! 🎉 Happy Birthday " ++ FRIEND_NAME
    ++ "! Wishing you the best year ever. I love you! - " ++ YOUR_NAME.

(** What the code does to the page and to the network.  [SetTimeout body ms]
    schedules [body] to run [ms] milliseconds later.

    [ShowTypingIndicator] is [botTypingElement = showTypingIndicator()]: a
    new indicator is put on the page and the global [botTypingElement] is
    bound to it.  [RemoveBotTypingElement] is [botTypingElement.remove()]:
    it takes off the page the element the global is bound to when the call
    is made.  The global is shared by [processInput] and the timers of the
    start-up (lines 181-187), and a timer may run while [processInput]
    awaits the backend: the element removed after the [await] is the one
    bound last, which need not be the one the turn has shown. *)
#[local] Set Warnings "-register-all".
Inductive action : Type :=
| AddMessage (text sender : string)
| AddImageMessage (url : string)
| ClearInput
| SetControlsDisabled (disabled : bool)
| ShowTypingIndicator
| RemoveBotTypingElement
| CreateConfetti
| Fetch (url message sender : string)
| ConsoleError (label : string)
| SetTimeout (body : list action) (ms : Z).

(** The requests to the backend that a list of actions makes, also from
    inside its timers. *)
Fixpoint fetches (a : action) : list string :=
  match a with
  | Fetch _ message _ => [message]
  | SetTimeout body _ =>
      (fix go (l : list action) : list string :=
         match l with
         | [] => []
         | x :: l' => (fetches x ++ go l')%list
         end) body
  | _ => []
  end.

Definition allFetches (l : list action) : list string := flat_map fetches l.

(** What [fetch] followed by [response.json()] gives: a body, whose
    [botResponse] field may be absent, or an exception. *)
Inductive fetchResult : Type :=
| Body (botResponse : option string)
| NetworkError.

Inductive verdict : Type := Advance | Retry.

Section Tables.

(** The built-ins of the runtime that the code calls, [input.trim()] and
    [input.toLowerCase()].  Nothing is assumed of them. *)
Variable trim : string -> string.
Variable toLowerCase : string -> string.

(** The two tables the author customises. *)
Variable prompts : list string.
Variable answers : list (list string).

(** [prompts[stage]]; an index out of range gives [undefined], which a
    template literal prints as such. *)
Definition promptAt (stage : Z) : string :=
  if (0 <=? stage) && (stage <? Z.of_nat (List.length prompts))
  then nth (Z.to_nat stage) prompts "undefined"
  else "undefined".

(** Line 107: [currentAnswers.some(keyword =>
    normalizedInput.includes(keyword.toLowerCase()))]. *)
Definition isCorrect (currentAnswers : list string) (input : string) : bool :=
  let normalizedInput := toLowerCase input in
  existsb (fun keyword => includes normalizedInput (toLowerCase keyword))
          currentAnswers.

(** Lines 102-137, the local check: [None] when the guard of line 103
    fails and nothing is evaluated, otherwise the verdict and the stage
    after it.  [input] is the text [processInput] has trimmed; the case
    folding is done here. *)
Definition evaluate (stage : Z) (input : string) : option (verdict * Z) :=
  if (0 <=? stage) && (stage <? Z.of_nat (List.length answers)) then
    let currentAnswers := nth (Z.to_nat stage) answers [] in
    if isCorrect currentAnswers input
    then Some (Advance, stage + 1)
    else Some (Retry, stage)
  else None.

(** Lines 115-128, the final reveal. *)
Definition finalReveal : list action :=
  [ RemoveBotTypingElement;
    AddMessage "🤖 [Birthday Bot]: CONGRATULATIONS! Gemini has confirmed your friendship status. Preparing transmission..." "bot";
    SetTimeout
      [ CreateConfetti;
        AddImageMessage FINAL_IMAGE_URL;
        SetTimeout
          [ AddMessage FINAL_MESSAGE "bot";
            SetControlsDisabled true ]
          1000 ]
      1000 ].

(** Lines 141-167, the exchange with the backend. *)
Definition sendToGemini (server : string -> fetchResult)
           (geminiInput : string) : list action :=
  (Fetch BACKEND_URL geminiInput "user" ::
  match server geminiInput with
  | Body data =>
      RemoveBotTypingElement ::
      match data with
      | Some botResponse =>
          if (botResponse =? "")%string
          then [AddMessage "🤖 [Birthday Bot]: Server response error. Try again!" "bot"]
          else [AddMessage botResponse "bot"]
      | None => [AddMessage "🤖 [Birthday Bot]: Server response error. Try again!" "bot"]
      end
  | NetworkError =>
      [ ConsoleError "Frontend Error:";
        RemoveBotTypingElement;
        AddMessage "Server communication error. Is the Node.js server running?" "bot" ]
  end
  ++ [SetControlsDisabled false])%list.

(** [processInput], lines 89-168: from the stage and the content of the
    input field to the new stage and the actions taken.  When line 98 is
    reached the global [botTypingElement] is bound to a new element; it is
    never bound to [null] again, so that the guards of lines 115 and 152
    hold and [remove] is called. *)
Definition processInput (server : string -> fetchResult)
           (stage : Z) (value : string) : Z * list action :=
  let input := trim value in
  if (input =? "")%string then (stage, [])
  else
    let shown :=
      [ AddMessage input "user"; ClearInput; SetControlsDisabled true;
        ShowTypingIndicator ] in
    match evaluate stage input with
    | Some (Advance, stage') =>
        if stage' =? Z.of_nat (List.length prompts)
        then (stage', (shown ++ finalReveal)%list)
        else
          let geminiInput :=
            "USER ANSWERED CORRECTLY: " ++ input
              ++ ". Prompt the next question: " ++ dquote
              ++ promptAt stage' ++ dquote
              ++ ". Be humorous and congratulate the user." in
          (stage', (shown ++ sendToGemini server geminiInput)%list)
    | Some (Retry, stage') =>
        let geminiInput :=
          "USER ANSWERED INCORRECTLY: " ++ input
            ++ " to the question: " ++ dquote
            ++ promptAt stage' ++ dquote
            ++ ". Be humorous and mock them lightly, then ask the same question again." in
        (stage', (shown ++ sendToGemini server geminiInput)%list)
    | None => (stage, (shown ++ sendToGemini server input)%list)
    end.

(** The stages a session goes through, from [stage], as the inputs are
    processed one after the other. *)
Fixpoint stages (server : string -> fetchResult)
         (stage : Z) (values : list string) : list Z :=
  match values with
  | [] => [stage]
  | value :: rest =>
      stage :: stages server (fst (processInput server stage value)) rest
  end.

(** An accepted answer, in the words of the data model: some entry of
    the stage's answers occurs, case folded, in the case-folded text.  The
    folding is that of the runtime. *)
Definition Accepted (stage : Z) (input : string) : Prop :=
  exists keyword,
    In keyword (nth (Z.to_nat stage) answers []) /\
    Substring (toLowerCase keyword) (toLowerCase input).

(** The condition under which a turn advances the stage: the text is
    not blank (the runtime trims it to a text that is not empty), a
    challenge is pending and the answer is accepted. *)
Definition Advances (stage : Z) (value : string) : Prop :=
  trim value <> "" /\
  0 <= stage < Z.of_nat (List.length answers) /\
  Accepted stage (trim value).

End Tables.

(** The tables of the repository. *)
Definition prompts : list string :=
  [ "Welcome! I am the Gemini-powered Birthday Bot. You must pass three trials of friendship to unlock your message. Send 'START' to begin!";
    "Alright, first trial! What is the slightly embarrassing code name we gave our favorite coffee shop? If you remember, enter it now!";
    "Excellent. Second Trial: What's the title of the absolutely terrible movie we watched together and vowed never to speak of again? Give me the exact title!";
    "Final Trial: Enter the secret phrase we say every time we leave each other's house. (This is the password!)" ].

Definition answers : list (list string) :=
  [ ["start"];
    ["[COFFEE SHOP KEYWORD]"; "[COFFEE SHOP ALT]"];
    ["[MOVIE TITLE KEYWORD]"; "[MOVIE TITLE ALT]"];
    ["[FINAL PASSWORD KEYWORD]"] ].

(** [let stage = 0]. *)
Definition initialStage : Z := 0.

(** Lines 180-187, what the page does when it is loaded: the welcome, and
    two timers that show an indicator and replace it by the first prompt.
    They bind and read the same global [botTypingElement] as
    [processInput]. *)
Definition startUp : list action :=
  [ AddMessage "Welcome to the Friendship Trials! I am the Gemini-powered Birthday Bot." "bot";
    SetTimeout
      [ ShowTypingIndicator;
        SetTimeout
          [ RemoveBotTypingElement;
            AddMessage (promptAt prompts 0) "bot" ]
          1500 ]
      1500 ].

End Script.

(** ** The server: what the three variants share *)

Module Runtime.

(** A JavaScript exception value: [error.status] (absent on a plain
    [Error]) and [error.message]. *)
Record jsError : Type := { status : option Z; errorMessage : string }.

(** A row of the [messages] table, less the time stamp.  The store assigns
    the time stamp and keeps it: the code never reads or writes it, and
    only names it in the [ORDER BY] of the admin query, which the store
    evaluates (see [listing] below). *)
Record row : Type := { id : Z; sender : string; message : string }.

Inductive body : Type :=
| ErrorBody (error : string)
| BotResponse (botResponse : string)
| Rows (messages : list row).

(** What a handler does to the outside, in order. *)
Inductive event : Type :=
| ConsoleLog (label : string)
| ConsoleError (label : string)
| ConsoleWarn (status : option Z) (seconds : Z)
| DbExec (statement : string)
| DbInsert (sender message : string)
| DbSelectAll
| ChatSend (message : string)
| Sleep (ms : Z)
| Listen
| Respond (status : Z) (content : body).

(** The process and its surroundings.  [db] is the global of that name:
    [None] while it is unset, otherwise the content of the [messages]
    table behind the connection.  The scripts say how the surroundings
    answer: [openScript] the opening of the data base file, [dbScript n]
    the [n]-th statement sent to the store ([None]: accepted), and
    [chatScript n m] the [n]-th call of [chat.sendMessage], made with
    message [m].  [listing rows] is what the store answers to
    [SELECT * FROM messages ORDER BY timestamp ASC] when the table holds
    [rows]: the order is the store's, by the time stamps it has assigned,
    and rows of equal time stamp come in an order of its choice. *)
Record world : Type := {
  db : option (list row);
  stored : list row;
  openScript : option jsError;
  dbScript : nat -> option jsError;
  dbOps : nat;
  chatScript : nat -> string -> string + jsError;
  chatCalls : nat;
  listing : list row -> list row
}.

Definition setDb (d : option (list row)) (w : world) : world :=
  {| db := d; stored := stored w; openScript := openScript w;
     dbScript := dbScript w; dbOps := dbOps w;
     chatScript := chatScript w; chatCalls := chatCalls w;
     listing := listing w |}.

Definition tickDb (w : world) : world :=
  {| db := db w; stored := stored w; openScript := openScript w;
     dbScript := dbScript w; dbOps := S (dbOps w);
     chatScript := chatScript w; chatCalls := chatCalls w;
     listing := listing w |}.

Definition tickChat (w : world) : world :=
  {| db := db w; stored := stored w; openScript := openScript w;
     dbScript := dbScript w; dbOps := dbOps w;
     chatScript := chatScript w; chatCalls := S (chatCalls w);
     listing := listing w |}.

(** *** Asynchronous code as a state, exception and output monad *)

Inductive outcome (A : Type) : Type :=
| Returned (a : A)
| Thrown (error : jsError).
Arguments Returned {A} a.
Arguments Thrown {A} error.

Record result (A : Type) : Type :=
  { out : outcome A; final : world; events : list event }.
Arguments out {A} r.
Arguments final {A} r.
Arguments events {A} r.

Definition M (A : Type) : Type := world -> result A.

Definition ret {A} (a : A) : M A :=
  fun w => {| out := Returned a; final := w; events := [] |}.

Definition throw {A} (error : jsError) : M A :=
  fun w => {| out := Thrown error; final := w; events := [] |}.

Definition bind {A B} (m : M A) (k : A -> M B) : M B :=
  fun w =>
    let r := m w in
    match out r with
    | Returned a =>
        let r' := k a (final r) in
        {| out := out r'; final := final r';
           events := (events r ++ events r')%list |}
    | Thrown error =>
        {| out := Thrown error; final := final r; events := events r |}
    end.

(** [try { m } catch (error) { handler error }]. *)
Definition tryCatch {A} (m : M A) (handler : jsError -> M A) : M A :=
  fun w =>
    let r := m w in
    match out r with
    | Returned a => r
    | Thrown error =>
        let r' := handler error (final r) in
        {| out := out r'; final := final r';
           events := (events r ++ events r')%list |}
    end.

Declare Scope js_scope.
Delimit Scope js_scope with js.
Notation "x <- m ;; k" := (bind m (fun x => k))
  (at level 61, m at next level, right associativity) : js_scope.
Notation "m ;; k" := (bind m (fun _ => k))
  (at level 61, right associativity) : js_scope.
Open Scope js_scope.

(** [r] with the events [evs] before its own. *)
Definition after {A} (evs : list event) (r : result A) : result A :=
  {| out := out r; final := final r; events := (evs ++ events r)%list |}.

Definition emit (e : event) : M unit :=
  fun w => {| out := Returned tt; final := w; events := [e] |}.

Definition getDb : M (option (list row)) :=
  fun w => {| out := Returned (db w); final := w; events := [] |}.

(** A plain [new Error(message)]. *)
Definition newError (message : string) : jsError :=
  {| status := None; errorMessage := message |}.

(** Calling a method of [db] while it is [undefined]. *)
Definition typeError (method : string) : jsError :=
  newError ("Cannot read properties of undefined (reading '" ++ method ++ "')").

(** [await chat.sendMessage({message})] followed by [result.text]. *)
Definition chatSendMessage (message : string) : M string :=
  fun w =>
    {| out := match chatScript w (chatCalls w) message with
              | inl text => Returned text
              | inr error => Thrown error
              end;
       final := tickChat w;
       events := [ChatSend message] |}.

(** [await new Promise(resolve => setTimeout(resolve, ms))]. *)
Definition sleep (ms : Z) : M unit := emit (Sleep ms).

(** One statement sent to the store: [effect] is applied to the table when
    the store accepts it. *)
Definition statement {A} (method : string) (e : event)
           (effect : list row -> list row) (answer : list row -> A) : M A :=
  fun w =>
    match db w with
    | None => throw (typeError method) w
    | Some rows =>
        match dbScript w (dbOps w) with
        | None =>
            {| out := Returned (answer (effect rows));
               final := setDb (Some (effect rows)) (tickDb w);
               events := [e] |}
        | Some error =>
            {| out := Thrown error; final := tickDb w; events := [e] |}
        end
    end.

(** The insert of [saveMessage]; the store assigns the [id], taken here to
    be the next integer. *)
Definition dbInsert (method : string) (sender message : string) : M unit :=
  statement method (DbInsert sender message)
    (fun rows =>
       (rows ++ [{| id := Z.of_nat (List.length rows) + 1;
                    sender := sender; message := message |}])%list)
    (fun _ => tt).

(** The select of the admin endpoint,
    [db.select('*').from('messages').orderBy('timestamp', 'asc')] or
    [db.all('SELECT * FROM messages ORDER BY timestamp ASC')]: the table
    is left as it is and the answer is the store's listing of it. *)
Definition dbSelectAll (method : string) : M (list row) :=
  fun w => statement method DbSelectAll (fun rows => rows) (listing w) w.

Definition dbExec (method : string) (sql : string) : M unit :=
  statement method (DbExec sql) (fun rows => rows) (fun _ => tt).

(** [sqlite.open]: on success [db] is bound to the stored table. *)
Definition dbOpen : M unit :=
  fun w =>
    match openScript w with
    | None => {| out := Returned tt; final := setDb (Some (stored w)) w;
                 events := [] |}
    | Some error => throw error w
    end.

Definition respond (status : Z) (content : body) : M unit :=
  emit (Respond status content).

(** [!message] for a body field that is a string or absent. *)
Definition falsy (v : option string) : bool :=
  match v with
  | None => true
  | Some s => (s =? "")%string
  end.

(** [error.status === 503 || error.status === 500]. *)
Definition transient (error : jsError) : bool :=
  match status error with
  | Some s => (s =? 503) || (s =? 500)
  | None => false
  end.

(** *** Reading a list of events *)

Definition isChatSend (e : event) : bool :=
  match e with ChatSend _ => true | _ => false end.

Definition attempts (evs : list event) : nat :=
  List.length (filter isChatSend evs).

(** The time slept before each call of the upstream service: [pending] is
    what has been slept since the previous call. *)
Fixpoint delaysFrom (pending : Z) (evs : list event) : list Z :=
  match evs with
  | [] => []
  | Sleep ms :: evs' => delaysFrom (pending + ms) evs'
  | ChatSend _ :: evs' => pending :: delaysFrom 0 evs'
  | _ :: evs' => delaysFrom pending evs'
  end.

Definition delaysBeforeAttempts (evs : list event) : list Z :=
  delaysFrom 0 evs.

Definition responses (evs : list event) : list (Z * body) :=
  flat_map (fun e => match e with
                     | Respond status content => [(status, content)]
                     | _ => []
                     end) evs.

Definition inserts (evs : list event) : list (string * string) :=
  flat_map (fun e => match e with
                     | DbInsert sender message => [(sender, message)]
                     | _ => []
                     end) evs.

Definition isQuery (e : event) : bool :=
  match e with
  | DbExec _ | DbInsert _ _ | DbSelectAll => true
  | _ => false
  end.

Definition queries (evs : list event) : list event := filter isQuery evs.

End Runtime.

Import Runtime.

(** ** [server.js]: Knex and PostgreSQL *)

Module ServerJs.

(** Lines 56-63. *)
Definition saveMessage (sender message : string) : M unit :=
  d <- getDb ;;
  match d with
  | None => emit (ConsoleError "Database connection not established.")
  | Some _ => dbInsert "insert" sender message
  end.

Definition unavailable : jsError :=
  newError "Gemini service unavailable after multiple retries.".

(** The loop of lines 82-96, from iteration [i], with [remaining]
    iterations to go; line 97 when none is left. *)
Fixpoint retryLoop (message : string) (retries : Z) (remaining : nat)
         (i : Z) : M string :=
  match remaining with
  | O => throw unavailable
  | S remaining' =>
      attempt <-
        tryCatch
          (text <- chatSendMessage message ;; ret (Some text))
          (fun error =>
             if transient error then
               emit (ConsoleWarn (status error) (2 ^ i)) ;;
               (if i <? retries - 1 then sleep (2 ^ i * 1000) else ret tt) ;;
               ret None
             else throw error) ;;
      match attempt with
      | Some text => ret text
      | None => retryLoop message retries remaining' (i + 1)
      end
  end.

(** Lines 81-98; the handler uses the default, [retries = 3]. *)
Definition sendMessageWithRetry (message : string) (retries : Z) : M string :=
  retryLoop message retries (Z.to_nat retries) 0.

(** Lines 108-129, [POST /api/chat]. *)
Definition chat (message sender : option string) : M unit :=
  match message with
  | Some text =>
      if falsy message
      then respond 400 (ErrorBody "No message provided.")
      else
        tryCatch
          (saveMessage "User" text ;;
           botResponseText <- sendMessageWithRetry text 3 ;;
           saveMessage "Bot" botResponseText ;;
           respond 200 (BotResponse botResponseText))
          (fun error =>
             emit (ConsoleError "Server Error during Chat:") ;;
             saveMessage "System Error"
               ("Failed to get Gemini response for: " ++ text) ;;
             respond 500 (ErrorBody "Internal server error. Please try again."))
  | None => respond 400 (ErrorBody "No message provided.")
  end.

(** Lines 132-144, [GET /api/admin/conversations]. *)
Definition adminConversations : M unit :=
  d <- getDb ;;
  match d with
  | None => respond 503 (ErrorBody "Database not ready.")
  | Some _ =>
      tryCatch
        (messages <- dbSelectAll "select" ;; respond 200 (Rows messages))
        (fun error =>
           emit (ConsoleError "Admin Endpoint Error:") ;;
           respond 500 (ErrorBody "Could not retrieve conversations."))
  end.

(** Line 30, [db = knex(config)]: the global is bound at once; the
    connection itself is made by the first statement sent. *)
Definition knex : M unit :=
  fun w => {| out := Returned tt; final := setDb (Some (stored w)) w;
              events := [] |}.

(** Lines 21-53.  [tableExists] is what the store answers to
    [hasTable('messages')], when it answers. *)
Definition initializeDatabase (tableExists : bool) : M unit :=
  knex ;;
  tryCatch
    (dbExec "raw" "SELECT 1+1 AS result" ;;
     emit (ConsoleLog "Database initialized and PostgreSQL connection successful.") ;;
     found <- statement "schema" (DbExec "hasTable messages")
                (fun rows => rows) (fun _ => tableExists) ;;
     if negb found then
       dbExec "schema" "createTable messages" ;;
       emit (ConsoleLog "PostgreSQL 'messages' table created.")
     else ret tt)
    (fun error =>
       emit (ConsoleError "Database Initialization Error:") ;;
       throw (newError "Failed to connect to PostgreSQL database. Check DATABASE_URL.")).

(** Lines 159-168: the server listens when [initializeDatabase] is
    fulfilled, and only then. *)
Definition start (tableExists : bool) : M unit :=
  initializeDatabase tableExists ;; emit Listen.

End ServerJs.

(** ** The first SQLite variant *)

Module Part000.

(** Lines 45-51. *)
Definition saveMessage (sender message : string) : M unit :=
  d <- getDb ;;
  match d with
  | None => emit (ConsoleError "Database connection not established.")
  | Some _ => dbInsert "run" sender message
  end.

Definition unavailable : jsError :=
  newError "Gemini service unavailable after multiple retries.".

(** Lines 70-85. *)
Fixpoint retryLoop (message : string) (retries : Z) (remaining : nat)
         (i : Z) : M string :=
  match remaining with
  | O => throw unavailable
  | S remaining' =>
      attempt <-
        tryCatch
          (text <- chatSendMessage message ;; ret (Some text))
          (fun error =>
             if transient error then
               emit (ConsoleWarn (status error) (2 ^ i)) ;;
               (if i <? retries - 1 then sleep (2 ^ i * 1000) else ret tt) ;;
               ret None
             else throw error) ;;
      match attempt with
      | Some text => ret text
      | None => retryLoop message retries remaining' (i + 1)
      end
  end.

Definition sendMessageWithRetry (message : string) (retries : Z) : M string :=
  retryLoop message retries (Z.to_nat retries) 0.

(** Lines 96-122. *)
Definition chat (message sender : option string) : M unit :=
  match message with
  | Some text =>
      if falsy message
      then respond 400 (ErrorBody "No message provided.")
      else
        tryCatch
          (saveMessage "User" text ;;
           botResponseText <- sendMessageWithRetry text 3 ;;
           saveMessage "Bot" botResponseText ;;
           respond 200 (BotResponse botResponseText))
          (fun error =>
             emit (ConsoleError "Gemini API Error:") ;;
             saveMessage "System Error"
               ("Failed to get Gemini response for: " ++ text) ;;
             respond 500
               (ErrorBody "Failed to communicate with the AI model. Try refreshing the page."))
  | None => respond 400 (ErrorBody "No message provided.")
  end.

(** Lines 125-137. *)
Definition adminConversations : M unit :=
  d <- getDb ;;
  match d with
  | None => respond 503 (ErrorBody "Database not ready.")
  | Some _ =>
      tryCatch
        (messages <- dbSelectAll "all" ;; respond 200 (Rows messages))
        (fun error =>
           emit (ConsoleError "Admin Endpoint Error:") ;;
           respond 500 (ErrorBody "Could not retrieve conversations."))
  end.

(** Lines 22-42: a failure to open the data base is logged and swallowed,
    and [db] stays unset. *)
Definition initializeDatabase : M unit :=
  tryCatch
    (dbOpen ;;
     dbExec "exec" "CREATE TABLE IF NOT EXISTS messages" ;;
     emit (ConsoleLog "Database initialized and 'messages' table ensured."))
    (fun error => emit (ConsoleError "Database Initialization Error:")).

(** Lines 152-158. *)
Definition start : M unit :=
  initializeDatabase ;; emit Listen.

End Part000.

(** ** The second SQLite variant (Railway port) *)

Module Part001.

(** Lines 24-44: a failure to open the data base is logged and
    swallowed, and [db] stays unset. *)
Definition initializeDatabase : M unit :=
  tryCatch
    (dbOpen ;;
     dbExec "exec" "CREATE TABLE IF NOT EXISTS messages" ;;
     emit (ConsoleLog "Database initialized and 'messages' table ensured."))
    (fun error => emit (ConsoleError "Database Initialization Error:")).

(** Lines 137-143: the server listens once [initializeDatabase] has
    settled. *)
Definition start : M unit :=
  initializeDatabase ;; emit Listen.

(** Lines 47-53. *)
Definition saveMessage (sender message : string) : M unit :=
  d <- getDb ;;
  match d with
  | None => emit (ConsoleError "Database not initialized.")
  | Some _ => dbInsert "run" sender message
  end.

Definition unavailable : jsError :=
  newError "Gemini service unavailable after retries.".

(** Lines 74-87: here the sleep follows every transient failure, the last
    one too. *)
Fixpoint retryLoop (message : string) (retries : Z) (remaining : nat)
         (i : Z) : M string :=
  match remaining with
  | O => throw unavailable
  | S remaining' =>
      attempt <-
        tryCatch
          (text <- chatSendMessage message ;; ret (Some text))
          (fun error =>
             if transient error then
               emit (ConsoleWarn (status error) (2 ^ i)) ;;
               sleep (2 ^ i * 1000) ;;
               ret None
             else throw error) ;;
      match attempt with
      | Some text => ret text
      | None => retryLoop message retries remaining' (i + 1)
      end
  end.

Definition sendMessageWithRetry (message : string) (retries : Z) : M string :=
  retryLoop message retries (Z.to_nat retries) 0.

(** [sender || "User"]. *)
Definition senderOrUser (sender : option string) : string :=
  match sender with
  | Some s => if falsy sender then "User" else s
  | None => "User"
  end.

(** Lines 96-114. *)
Definition chat (message sender : option string) : M unit :=
  match message with
  | Some text =>
      if falsy message
      then respond 400 (ErrorBody "Message is required.")
      else
        tryCatch
          (saveMessage (senderOrUser sender) text ;;
           botReply <- sendMessageWithRetry text 3 ;;
           saveMessage "Bot" botReply ;;
           respond 200 (BotResponse botReply))
          (fun error =>
             emit (ConsoleError "Chat Error:") ;;
             saveMessage "System" "Gemini failure during reply." ;;
             respond 500 (ErrorBody "AI model failed. Try again."))
  | None => respond 400 (ErrorBody "Message is required.")
  end.

(** Lines 117-125: no test of [db] before the query. *)
Definition adminConversations : M unit :=
  tryCatch
    (messages <- dbSelectAll "all" ;; respond 200 (Rows messages))
    (fun error =>
       emit (ConsoleError "Admin Fetch Error:") ;;
       respond 500 (ErrorBody "Could not fetch conversations.")).

End Part001.

(** A world in which nothing has happened yet: [db] unset, an empty table
    on disk, a store that accepts every statement and lists the rows in the
    order it received them, and an upstream service that answers [reply] to
    every call. *)
Definition quietWorld (reply : string) : world :=
  {| db := None; stored := []; openScript := None;
     dbScript := fun _ => None; dbOps := O;
     chatScript := fun _ _ => inl reply; chatCalls := O;
     listing := fun rows => rows |}.

(** The upstream service fails with a transient error at each of the next
    [n] calls made with [message]. *)
Definition Down (message : string) (n : nat) (w : world) : Prop :=
  forall k, (k < n)%nat ->
    exists error,
      chatScript w (chatCalls w + k) message = inr error /\
      transient error = true.

(** [w] with the connection established on an empty table. *)
Definition connected (w : world) : world := setDb (Some []) w.

(** [w] with an upstream service that fails every call with [error]. *)
Definition failing (error : jsError) (w : world) : world :=
  {| db := db w; stored := stored w; openScript := openScript w;
     dbScript := dbScript w; dbOps := dbOps w;
     chatScript := fun _ _ => inr error; chatCalls := chatCalls w;
     listing := listing w |}.

(** [w] with a store that rejects its [n]-th statement with [error]. *)
Definition rejecting (n : nat) (error : jsError) (w : world) : world :=
  {| db := db w; stored := stored w; openScript := openScript w;
     dbScript := fun k => if Nat.eqb k n then Some error else dbScript w k;
     dbOps := dbOps w;
     chatScript := chatScript w; chatCalls := chatCalls w;
     listing := listing w |}.

(** [w] with a data base file that cannot be opened. *)
Definition unopenable (error : jsError) (w : world) : world :=
  {| db := db w; stored := stored w; openScript := Some error;
     dbScript := dbScript w; dbOps := dbOps w;
     chatScript := chatScript w; chatCalls := chatCalls w;
     listing := listing w |}.

Definition errorBusy : jsError :=
  {| status := None; errorMessage := "SQLITE_BUSY: database is locked" |}.

Definition errorCantOpen : jsError :=
  {| status := None; errorMessage := "SQLITE_CANTOPEN: unable to open database file" |}.

Definition error503 : jsError :=
  {| status := Some 503; errorMessage := "The model is overloaded." |}.

Definition error400 : jsError :=
  {| status := Some 400; errorMessage := "API key not valid." |}.

(** ** Further readings of a list of events *)

(** The events the relay produces: calls of the upstream service made with
    [message], warnings and sleeps. *)
Definition isRelayEvent (message : string) (e : event) : Prop :=
  match e with
  | ChatSend m => m = message
  | ConsoleWarn _ _ | Sleep _ => True
  | _ => False
  end.

(** The time slept, in milliseconds. *)
Fixpoint totalSleep (evs : list event) : Z :=
  match evs with
  | [] => 0
  | Sleep ms :: evs' => ms + totalSleep evs'
  | _ :: evs' => totalSleep evs'
  end.

(** The upstream service fails with a transient error [k] times and then
    answers [answer] (a text, or an error) to the call made with
    [message]. *)
Definition DownThen (message : string) (k : nat) (answer : string + jsError)
           (w : world) : Prop :=
  Down message k w /\
  chatScript w (chatCalls w + k) message = answer.

(** The senders [server.js] writes to the transcript. *)
Definition isServerJsSender (r : row) : Prop :=
  sender r = "User" \/ sender r = "Bot" \/ sender r = "System Error".

(** What a run of the relay from [w] leaves untouched: its events are its
    own, the store and the scripts are as before, and the count of calls
    has grown by the attempts made. *)
Definition RelayFrame (message : string) (w : world) (r : result string) : Prop :=
  Forall (isRelayEvent message) (events r) /\
  db (final r) = db w /\
  stored (final r) = stored w /\
  dbScript (final r) = dbScript w /\
  dbOps (final r) = dbOps w /\
  chatScript (final r) = chatScript w /\
  chatCalls (final r) = (chatCalls w + attempts (events r))%nat.

(** [w] with an upstream service that fails [k] calls with status 503 and
    gives [answer] from then on. *)
Definition flaky (k : nat) (answer : string + jsError) (w : world) : world :=
  {| db := db w; stored := stored w; openScript := openScript w;
     dbScript := dbScript w; dbOps := dbOps w;
     chatScript := fun n _ => if Nat.ltb n k then inr error503 else answer;
     chatCalls := O; listing := listing w |}.

(** ** The common shape of the variants *)

(** [saveMessage], up to the text logged while [db] is unset and the
    method that sends the insert. *)
Definition saveWith (notReady method : string) (sender message : string) : M unit :=
  d <- getDb ;;
  match d with
  | None => emit (ConsoleError notReady)
  | Some _ => dbInsert method sender message
  end.

(** The handler of [POST /api/chat], up to its collaborators, the sender
    it records for the user and its texts. *)
Definition chatWith (save : string -> string -> M unit)
           (send : string -> Z -> M string)
           (user : option string -> string)
           (missing label system : string) (failure : string -> string)
           (generic : string)
           (message sender : option string) : M unit :=
  match message with
  | Some text =>
      if falsy message
      then respond 400 (ErrorBody missing)
      else
        tryCatch
          (save (user sender) text ;;
           reply <- send text 3 ;;
           save "Bot" reply ;;
           respond 200 (BotResponse reply))
          (fun error =>
             emit (ConsoleError label) ;;
             save system (failure text) ;;
             respond 500 (ErrorBody generic))
  | None => respond 400 (ErrorBody missing)
  end.

(** A handler run that ends with its one response, of a status among
    [codes]: nothing is answered before it and nothing is done after it. *)
Definition AnswersOnce (codes : list Z) (r : result unit) : Prop :=
  exists evs status content,
    out r = Returned tt /\
    events r = (evs ++ [Respond status content])%list /\
    responses evs = [] /\
    In status codes.

(** A handler run that ends with an exception and has answered nothing. *)
Definition EndsUnanswered (r : result unit) : Prop :=
  exists error, out r = Thrown error /\ responses (events r) = [].

(** The transcript of [w'] is that of [w] with [n] rows added at the end,
    each of a sender among [senders]; an unset [db] stays unset. *)
Definition Extends (senders : list string) (n : nat) (w w' : world) : Prop :=
  match db w with
  | None => db w' = None /\ n = O
  | Some rows =>
      exists added,
        db w' = Some (rows ++ added)%list /\
        List.length added = n /\
        Forall (fun r => In (sender r) senders) added
  end.

(** The store takes every statement sent to it, or [db] is unset and none
    is sent. *)
Definition StoreCalm (w : world) : Prop :=
  db w = None \/ forall k, dbScript w k = None.

(** ** Readings of the actions of the client *)

(** The state of the controls that a list of actions leaves behind, timers
    aside: the last [disabled] it sets, if it sets one. *)
Fixpoint lastControls (l : list Script.action) : option bool :=
  match l with
  | [] => None
  | a :: l' =>
      match lastControls l' with
      | Some b => Some b
      | None =>
          match a with
          | Script.SetControlsDisabled b => Some b
          | _ => None
          end
      end
  end.

(** An action that enables the controls, by itself or from one of its
    timers. *)
Fixpoint enables (a : Script.action) : bool :=
  match a with
  | Script.SetControlsDisabled disabled => negb disabled
  | Script.SetTimeout body _ =>
      (fix go (l : list Script.action) : bool :=
         match l with
         | [] => false
         | x :: l' => enables x || go l'
         end) body
  | _ => false
  end.

(** A turn that shows the final image, by itself or from one of its
    timers. *)
Fixpoint showsImage (a : Script.action) : bool :=
  match a with
  | Script.AddImageMessage _ => true
  | Script.SetTimeout body _ =>
      (fix go (l : list Script.action) : bool :=
         match l with
         | [] => false
         | x :: l' => showsImage x || go l'
         end) body
  | _ => false
  end.

(** The actions of each turn of a session, as the inputs are processed one
    after the other from [stage]. *)
Fixpoint turns (trim toLowerCase : string -> string)
         (prompts : list string) (answers : list (list string))
         (server : string -> Script.fetchResult)
         (stage : Z) (values : list string) : list (list Script.action) :=
  match values with
  | [] => []
  | value :: rest =>
      snd (Script.processInput trim toLowerCase prompts answers server stage value)
        :: turns trim toLowerCase prompts answers server
             (fst (Script.processInput trim toLowerCase prompts answers server
                     stage value)) rest
  end.

(** An event the handlers produce by themselves: anything but a call of
    the upstream service, a warning of the relay or a sleep. *)
Definition isHandlerEvent (e : event) : Prop :=
  match e with
  | ChatSend _ | ConsoleWarn _ _ | Sleep _ => False
  | _ => True
  end.

Example trim_example : AsciiText.trim "  Start me " = "Start me".
Proof. reflexivity. Qed.

Example evaluate_start :
  Script.evaluate AsciiText.toLowerCase Script.answers 0 "Please START"
  = Some (Script.Advance, 1).
Proof. reflexivity. Qed.

Example evaluate_banana :
  Script.evaluate AsciiText.toLowerCase Script.answers 1 "banana"
  = Some (Script.Retry, 1).
Proof. reflexivity. Qed.

(** ** The gatekeeper *)

Section StringFacts.

Lemma startsWith_iff (s k : string) :
  startsWith s k = true <-> exists post, s = k ++ post.
Proof.
  revert s; induction k as [|a k IH]; intros s; simpl.
  - split; [intros _; now exists s | reflexivity].
  - destruct s as [|b s].
    + split; [discriminate | intros [post H]; discriminate].
    + rewrite andb_true_iff, Ascii.eqb_eq, IH. split.
      * intros [-> [post ->]]. now exists post.
      * intros [post H]. injection H as -> ->. split; [reflexivity | now exists post].
Qed.

Lemma includes_iff (s k : string) :
  includes s k = true <-> Substring k s.
Proof.
  unfold Substring. induction s as [|b s IH].
  - cbn [includes]. rewrite orb_false_r, startsWith_iff. split.
    + intros [post H]. now exists "", post.
    + intros [pre [post H]]. destruct pre; [now exists post | discriminate].
  - cbn [includes]. rewrite orb_true_iff, startsWith_iff, IH. split.
    + intros [[post H] | [pre [post H]]].
      * now exists "", post.
      * exists (String b pre), post. simpl. now rewrite H.
    + intros [pre [post H]]. destruct pre as [|c pre].
      * left. now exists post.
      * right. simpl in H. injection H as _ H. now exists pre, post.
Qed.

End StringFacts.

Section Gatekeeper.

Import Script.

(** The built-ins of the runtime and the tables: the facts of this section
    hold for all of them. *)
Variable trim : string -> string.
Variable toLowerCase : string -> string.
Variable prompts : list string.
Variable answers : list (list string).

Let K : Z := Z.of_nat (List.length answers).

Lemma isCorrect_iff (currentAnswers : list string) (input : string) :
  isCorrect toLowerCase currentAnswers input = true <->
  exists keyword,
    In keyword currentAnswers /\
    Substring (toLowerCase keyword) (toLowerCase input).
Proof.
  unfold isCorrect. rewrite existsb_exists.
  split; intros [keyword [Hin H]]; exists keyword; split; trivial;
    now apply includes_iff.
Qed.

Lemma evaluate_accepted (stage : Z) (input : string) :
  0 <= stage < K -> Accepted toLowerCase answers stage input ->
  evaluate toLowerCase answers stage input = Some (Advance, stage + 1).
Proof.
  intros Hs Hacc. unfold evaluate. fold K.
  replace ((0 <=? stage) && (stage <? K)) with true
    by (symmetry; apply andb_true_iff; split; [apply Z.leb_le | apply Z.ltb_lt]; lia).
  now rewrite (proj2 (isCorrect_iff _ _) Hacc).
Qed.

Lemma evaluate_rejected (stage : Z) (input : string) :
  0 <= stage < K -> ~ Accepted toLowerCase answers stage input ->
  evaluate toLowerCase answers stage input = Some (Retry, stage).
Proof.
  intros Hs Hacc. unfold evaluate. fold K.
  replace ((0 <=? stage) && (stage <? K)) with true
    by (symmetry; apply andb_true_iff; split; [apply Z.leb_le | apply Z.ltb_lt]; lia).
  destruct (isCorrect _ _ input) eqn:E; [|reflexivity].
  exfalso. apply Hacc. now apply isCorrect_iff.
Qed.

Lemma evaluate_outside (stage : Z) (input : string) :
  ~ 0 <= stage < K -> evaluate toLowerCase answers stage input = None.
Proof.
  intros Hs. unfold evaluate. fold K.
  destruct (Z.leb_spec 0 stage), (Z.ltb_spec stage K); simpl; trivial; lia.
Qed.

(** The stage [processInput] leaves behind. *)
Lemma processInput_stage (server : string -> fetchResult) (stage : Z)
      (value : string) :
  fst (processInput trim toLowerCase prompts answers server stage value) =
    if (trim value =? "")%string then stage
    else match evaluate toLowerCase answers stage (trim value) with
         | Some (_, stage') => stage'
         | None => stage
         end.
Proof.
  unfold processInput.
  destruct (trim value =? "")%string; [reflexivity|].
  destruct (evaluate toLowerCase answers stage (trim value)) as [[[|] stage']|];
    try reflexivity.
  now destruct (stage' =? Z.of_nat (List.length prompts)).
Qed.

Lemma processInput_step (server : string -> fetchResult) (stage : Z)
      (value : string) :
  let stage' := fst (processInput trim toLowerCase prompts answers server stage value) in
  (Advances trim toLowerCase answers stage value /\ stage' = stage + 1) \/
  (~ Advances trim toLowerCase answers stage value /\ stage' = stage).
Proof.
  cbv zeta. rewrite processInput_stage. unfold Advances. fold K.
  destruct (String.eqb_spec (trim value) "") as [E|E].
  - right. split; [intros [H _]; contradiction | reflexivity].
  - assert (Hdec : 0 <= stage < K \/ ~ 0 <= stage < K) by lia.
    destruct Hdec as [Hs|Hs].
    + destruct (isCorrect toLowerCase (nth (Z.to_nat stage) answers []) (trim value)) eqn:C.
      * left. assert (Accepted toLowerCase answers stage (trim value))
          by now apply isCorrect_iff.
        rewrite evaluate_accepted by trivial. auto.
      * right. assert (~ Accepted toLowerCase answers stage (trim value)).
        { intros H. apply isCorrect_iff in H. congruence. }
        rewrite evaluate_rejected by trivial. split; [tauto | reflexivity].
    + right. rewrite evaluate_outside by trivial. split; [tauto | reflexivity].
Qed.

Lemma stages_bounds (server : string -> fetchResult) (values : list string) :
  forall stage, 0 <= stage <= K ->
    Forall (fun s => stage <= s <= K)
           (stages trim toLowerCase prompts answers server stage values).
Proof.
  induction values as [|value rest IH]; intros stage Hs; simpl.
  - constructor; [lia | constructor].
  - constructor; [lia|].
    pose proof (processInput_step server stage value) as Hstep. cbv zeta in Hstep.
    assert (Hnext : stage <= fst (processInput trim toLowerCase prompts answers server stage value) <= K).
    { destruct Hstep as [[[_ [Hlt _]] ->] | [_ ->]]; unfold K in *; lia. }
    eapply Forall_impl; [|apply IH; lia].
    simpl. intros; lia.
Qed.

Lemma stages_sorted (server : string -> fetchResult) (values : list string) :
  forall stage, 0 <= stage <= K ->
    StronglySorted Z.le (stages trim toLowerCase prompts answers server stage values).
Proof.
  induction values as [|value rest IH]; intros stage Hs; simpl.
  - repeat constructor.
  - pose proof (processInput_step server stage value) as Hstep. cbv zeta in Hstep.
    assert (Hnext : stage <= fst (processInput trim toLowerCase prompts answers server stage value) <= K).
    { destruct Hstep as [[[_ [Hlt _]] ->] | [_ ->]]; unfold K in *; lia. }
    constructor; [apply IH; lia|].
    eapply Forall_impl; [|apply stages_bounds; lia].
    simpl. intros; lia.
Qed.

Lemma stages_step (server : string -> fetchResult) (values : list string) :
  forall stage i s s' value,
    nth_error (stages trim toLowerCase prompts answers server stage values) i = Some s ->
    nth_error (stages trim toLowerCase prompts answers server stage values) (S i) = Some s' ->
    nth_error values i = Some value ->
    s' = fst (processInput trim toLowerCase prompts answers server s value).
Proof.
  induction values as [|v rest IH]; intros stage i s s' value Hs Hs' Hv.
  - destruct i; discriminate.
  - destruct i as [|i]; simpl in *.
    + injection Hs as <-. injection Hv as <-.
      destruct rest; simpl in Hs'; congruence.
    + eapply IH; eassumption.
Qed.

(** C1. Whatever the runtime's [trim] and [toLowerCase] compute, at every
    stage below the number of challenges:
    - the local check, given a text, folds it and each accepted answer of
      the stage with [toLowerCase], and returns [Advance] with the stage
      after it when the folded text contains a folded answer, [Retry] with
      the stage kept when it contains none;
    - [processInput], given the content of the input field, applies [trim]
      to it and submits the result to that check: the stage it leaves is
      the stage after it when the trimmed text is not empty and is
      accepted, and the stage it found when the trimmed text is not
      accepted or is empty. *)
Theorem C1_evaluate_advance_or_retry (server : string -> fetchResult)
        (stage : Z) :
  0 <= stage < Z.of_nat (List.length answers) ->
  (forall input : string,
     (Accepted toLowerCase answers stage input ->
        evaluate toLowerCase answers stage input = Some (Advance, stage + 1)) /\
     (~ Accepted toLowerCase answers stage input ->
        evaluate toLowerCase answers stage input = Some (Retry, stage))) /\
  (forall value : string,
     (trim value <> "" -> Accepted toLowerCase answers stage (trim value) ->
        fst (processInput trim toLowerCase prompts answers server stage value)
        = stage + 1) /\
     (~ Accepted toLowerCase answers stage (trim value) ->
        fst (processInput trim toLowerCase prompts answers server stage value)
        = stage) /\
     (trim value = "" ->
        fst (processInput trim toLowerCase prompts answers server stage value)
        = stage)).
Proof.
  intros Hs. split.
  - intros input. split; intros Hacc;
      [now apply evaluate_accepted | now apply evaluate_rejected].
  - intros value. rewrite processInput_stage. repeat split.
    + intros Hne Hacc.
      destruct (String.eqb_spec (trim value) ""); [contradiction|].
      now rewrite evaluate_accepted.
    + intros Hacc.
      destruct (String.eqb_spec (trim value) ""); [reflexivity|].
      now rewrite evaluate_rejected.
    + intros E. now rewrite E.
Qed.

(** C6. At the last challenge (stage [K - 1], with as many prompts as
    answer sets) an answer that the runtime trims to a text that is not
    empty and is accepted moves the stage to [K], and the turn is exactly:
    the trimmed text shown as the user's, the field cleared, the controls
    locked, the typing indicator shown and, with no [await] in between,
    the element just bound to [botTypingElement] removed, the confirmation
    notice, then a timer of 1000 ms that shows the confetti and the image
    and starts a second timer of 1000 ms that shows the final message and
    locks the controls.  No request is sent to the backend, from the turn
    or from its timers.  This holds whatever [trim] and [toLowerCase]
    compute. *)
Theorem C6_terminal_sequence (server : string -> fetchResult)
        (stage : Z) (value : string) :
  List.length prompts = List.length answers ->
  0 <= stage ->
  stage = Z.of_nat (List.length answers) - 1 ->
  trim value <> "" ->
  Accepted toLowerCase answers stage (trim value) ->
  processInput trim toLowerCase prompts answers server stage value =
    (Z.of_nat (List.length answers),
     [ AddMessage (trim value) "user"; ClearInput; SetControlsDisabled true;
       ShowTypingIndicator; RemoveBotTypingElement;
       AddMessage "🤖 [Birthday Bot]: CONGRATULATIONS! Gemini has confirmed your friendship status. Preparing transmission..." "bot";
       SetTimeout
         [ CreateConfetti;
           AddImageMessage FINAL_IMAGE_URL;
           SetTimeout
             [ AddMessage FINAL_MESSAGE "bot"; SetControlsDisabled true ]
             1000 ]
         1000 ]) /\
  allFetches (snd (processInput trim toLowerCase prompts answers server stage value)) = [].
Proof.
  intros Hlen Hs HK Hne Hacc.
  assert (E : processInput trim toLowerCase prompts answers server stage value =
              (stage + 1,
               ([ AddMessage (trim value) "user"; ClearInput;
                  SetControlsDisabled true; ShowTypingIndicator ]
                  ++ finalReveal)%list)).
  { unfold processInput.
    destruct (String.eqb_spec (trim value) ""); [contradiction|].
    rewrite evaluate_accepted by (trivial; fold K; lia).
    rewrite Hlen.
    replace (stage + 1 =? Z.of_nat (List.length answers)) with true
      by (symmetry; apply Z.eqb_eq; lia).
    reflexivity. }
  rewrite E. replace (stage + 1) with (Z.of_nat (List.length answers)) by lia.
  split; reflexivity.
Qed.

(** C7. Along every sequence of inputs processed from the initial stage,
    and whatever the runtime's [trim] and [toLowerCase] compute, the stage
    stays between 0 and the number of challenges [K] and never decreases;
    a turn adds exactly one when the trimmed text is not empty, a
    challenge is pending and the answer is accepted, and leaves the stage
    as it is otherwise; and at stage [K] the local check is not evaluated,
    on any text, and the stage stays [K]. *)
Theorem C7_stage_monotone (server : string -> fetchResult)
        (values : list string) :
  let K := Z.of_nat (List.length answers) in
  let trace := stages trim toLowerCase prompts answers server initialStage values in
  Forall (fun s => 0 <= s <= K) trace /\
  StronglySorted Z.le trace /\
  (forall i s s' value,
      nth_error trace i = Some s ->
      nth_error trace (S i) = Some s' ->
      nth_error values i = Some value ->
      (Advances trim toLowerCase answers s value /\ s' = s + 1) \/
      (~ Advances trim toLowerCase answers s value /\ s' = s)) /\
  (forall i value,
      nth_error trace i = Some K ->
      nth_error values i = Some value ->
      (forall input, evaluate toLowerCase answers K input = None) /\
      nth_error trace (S i) = Some K).
Proof.
  cbv zeta. fold K. unfold initialStage.
  assert (H0 : 0 <= 0 <= K) by (unfold K; lia).
  split; [now apply stages_bounds|].
  split; [now apply stages_sorted|].
  split.
  - intros i s s' value Hs Hs' Hv.
    rewrite (stages_step server values 0 i s s' value Hs Hs' Hv).
    apply processInput_step.
  - intros i value Hs Hv.
    assert (Hnone : forall input, evaluate toLowerCase answers K input = None)
      by (intros input; apply evaluate_outside; fold K; lia).
    split; [exact Hnone|].
    assert (Hlen : (S i < List.length (stages trim toLowerCase prompts answers server 0 values))%nat).
    { assert (L : forall l s, List.length (stages trim toLowerCase prompts answers server s l)
                              = S (List.length l)).
      { induction l; intros; simpl; [reflexivity | now rewrite IHl]. }
      rewrite L. apply -> Nat.succ_lt_mono.
      apply nth_error_Some. congruence. }
    destruct (nth_error (stages trim toLowerCase prompts answers server 0 values) (S i))
      as [s'|] eqn:Hs'; [|apply nth_error_None in Hs'; lia].
    rewrite (stages_step server values 0 i K s' value Hs Hs' Hv).
    rewrite processInput_stage, Hnone.
    now destruct (trim value =? "")%string.
Qed.

(** The client side of the validation: a text that the runtime trims to
    the empty text is dropped before anything is shown, evaluated or
    sent, and no other text is. *)
Lemma processInput_blank (server : string -> fetchResult) (stage : Z)
      (value : string) :
  trim value = "" ->
  processInput trim toLowerCase prompts answers server stage value = (stage, []).
Proof.
  intros E. unfold processInput. now rewrite E.
Qed.

Lemma processInput_shown (server : string -> fetchResult) (stage : Z)
      (value : string) :
  trim value <> "" ->
  exists rest,
    snd (processInput trim toLowerCase prompts answers server stage value) =
      AddMessage (trim value) "user" :: ClearInput :: SetControlsDisabled true
        :: ShowTypingIndicator :: rest.
Proof.
  intros E. unfold processInput.
  destruct (String.eqb_spec (trim value) ""); [contradiction|].
  destruct (evaluate toLowerCase answers stage (trim value)) as [[[|] stage']|];
    [destruct (stage' =? Z.of_nat (List.length prompts))| |];
    eexists; reflexivity.
Qed.

End Gatekeeper.

(** ** The relay: [sendMessageWithRetry] *)

Section Relay.

Variable message : string.
Variable retries : Z.

Lemma Down_tick (n : nat) (w : world) :
  Down message (S n) w -> Down message n (tickChat w).
Proof.
  intros H k Hk. destruct (H (S k)) as [error [E T]]; [lia|].
  exists error. simpl. rewrite Nat.add_succ_r in E. now split.
Qed.

Lemma Down_now (n : nat) (w : world) :
  Down message (S n) w ->
  exists error,
    chatScript w (chatCalls w) message = inr error /\ transient error = true.
Proof.
  intros H. destruct (H O) as [error [E T]]; [lia|].
  rewrite Nat.add_0_r in E. now exists error.
Qed.

Lemma delaysFrom_length (evs : list event) :
  forall pending, List.length (delaysFrom pending evs) = attempts evs.
Proof.
  unfold attempts.
  induction evs as [|e evs IH]; intros pending; [reflexivity|].
  destruct e; simpl; auto.
Qed.

(** *** One iteration of the loop of [server.js] *)

Lemma ServerJs_loop_answer (n : nat) (i : Z) (w : world) (text : string) :
  chatScript w (chatCalls w) message = inl text ->
  ServerJs.retryLoop message retries (S n) i w =
    {| out := Returned text; final := tickChat w;
       events := [ChatSend message] |}.
Proof.
  intros E. cbn [ServerJs.retryLoop].
  unfold bind, tryCatch, chatSendMessage, ret. cbn. rewrite E. reflexivity.
Qed.

Lemma ServerJs_loop_fatal (n : nat) (i : Z) (w : world) (error : jsError) :
  chatScript w (chatCalls w) message = inr error ->
  transient error = false ->
  ServerJs.retryLoop message retries (S n) i w =
    {| out := Thrown error; final := tickChat w;
       events := [ChatSend message] |}.
Proof.
  intros E T. cbn [ServerJs.retryLoop].
  unfold bind, tryCatch, chatSendMessage, ret, throw. cbn.
  rewrite E. cbn. rewrite T. reflexivity.
Qed.

Lemma ServerJs_loop_transient (n : nat) (i : Z) (w : world) (error : jsError) :
  chatScript w (chatCalls w) message = inr error ->
  transient error = true ->
  ServerJs.retryLoop message retries (S n) i w =
    after ([ChatSend message; ConsoleWarn (status error) (2 ^ i)]
             ++ (if i <? retries - 1 then [Sleep (2 ^ i * 1000)] else []))
          (ServerJs.retryLoop message retries n (i + 1) (tickChat w)).
Proof.
  intros E T. cbn [ServerJs.retryLoop].
  unfold bind, tryCatch, chatSendMessage, ret, throw, sleep, emit, after. cbn.
  rewrite E. cbn. rewrite T.
  destruct (i <? retries - 1); cbn;
    destruct (out (ServerJs.retryLoop message retries n (i + 1) (tickChat w)));
    reflexivity.
Qed.

(** *** One iteration of the loop of the second SQLite variant *)

Lemma Part001_loop_answer (n : nat) (i : Z) (w : world) (text : string) :
  chatScript w (chatCalls w) message = inl text ->
  Part001.retryLoop message retries (S n) i w =
    {| out := Returned text; final := tickChat w;
       events := [ChatSend message] |}.
Proof.
  intros E. cbn [Part001.retryLoop].
  unfold bind, tryCatch, chatSendMessage, ret. cbn. rewrite E. reflexivity.
Qed.

Lemma Part001_loop_fatal (n : nat) (i : Z) (w : world) (error : jsError) :
  chatScript w (chatCalls w) message = inr error ->
  transient error = false ->
  Part001.retryLoop message retries (S n) i w =
    {| out := Thrown error; final := tickChat w;
       events := [ChatSend message] |}.
Proof.
  intros E T. cbn [Part001.retryLoop].
  unfold bind, tryCatch, chatSendMessage, ret, throw. cbn.
  rewrite E. cbn. rewrite T. reflexivity.
Qed.

Lemma Part001_loop_transient (n : nat) (i : Z) (w : world) (error : jsError) :
  chatScript w (chatCalls w) message = inr error ->
  transient error = true ->
  Part001.retryLoop message retries (S n) i w =
    after [ChatSend message; ConsoleWarn (status error) (2 ^ i);
           Sleep (2 ^ i * 1000)]
          (Part001.retryLoop message retries n (i + 1) (tickChat w)).
Proof.
  intros E T. cbn [Part001.retryLoop].
  unfold bind, tryCatch, chatSendMessage, ret, throw, sleep, emit, after. cbn.
  rewrite E. cbn. rewrite T. cbn.
  destruct (out (Part001.retryLoop message retries n (i + 1) (tickChat w)));
    reflexivity.
Qed.

(** *** The whole loop *)

Lemma attempts_app (evs evs' : list event) :
  attempts (evs ++ evs') = (attempts evs + attempts evs')%nat.
Proof.
  unfold attempts. now rewrite filter_app, length_app.
Qed.

Lemma ServerJs_loop_exhausted (n : nat) :
  forall i w, Down message n w ->
    let r := ServerJs.retryLoop message retries n i w in
    out r = Thrown ServerJs.unavailable /\
    attempts (events r) = n /\
    final r = Nat.iter n tickChat w.
Proof.
  induction n as [|n IH]; intros i w H; cbv zeta.
  - repeat split.
  - destruct (Down_now n w H) as [error [E T]].
    rewrite (ServerJs_loop_transient n i w error E T).
    destruct (IH (i + 1) (tickChat w) (Down_tick n w H)) as [Ho [Ha Hf]].
    unfold after. cbn [out final events]. repeat split.
    + exact Ho.
    + rewrite attempts_app, Ha. now destruct (i <? retries - 1).
    + rewrite Hf. symmetry. apply Nat.iter_succ_r.
Qed.

Lemma Part001_loop_exhausted (n : nat) :
  forall i w, Down message n w ->
    let r := Part001.retryLoop message retries n i w in
    out r = Thrown Part001.unavailable /\
    attempts (events r) = n /\
    final r = Nat.iter n tickChat w.
Proof.
  induction n as [|n IH]; intros i w H; cbv zeta.
  - repeat split.
  - destruct (Down_now n w H) as [error [E T]].
    rewrite (Part001_loop_transient n i w error E T).
    destruct (IH (i + 1) (tickChat w) (Down_tick n w H)) as [Ho [Ha Hf]].
    unfold after. cbn [out final events]. repeat split.
    + exact Ho.
    + rewrite attempts_app, Ha. reflexivity.
    + rewrite Hf. symmetry. apply Nat.iter_succ_r.
Qed.

(** The delay before the first call of a run of the loop is what was
    pending, and the delay before each later call is the back-off of the
    iteration that failed just before it. *)
Lemma ServerJs_loop_delays (n : nat) :
  forall i w pending j x,
    i + Z.of_nat n = retries -> 0 <= i ->
    nth_error
      (delaysFrom pending (events (ServerJs.retryLoop message retries n i w)))
      j = Some x ->
    x = match j with
        | O => pending
        | S j' => 2 ^ (i + Z.of_nat j') * 1000
        end.
Proof.
  induction n as [|n IH]; intros i w pending j x Hn Hi Hx.
  - destruct j; discriminate.
  - destruct (chatScript w (chatCalls w) message) as [text|error] eqn:E.
    { rewrite (ServerJs_loop_answer n i w text E) in Hx.
      destruct j as [|[|j]]; simpl in Hx; congruence. }
    destruct (transient error) eqn:T.
    2:{ rewrite (ServerJs_loop_fatal n i w error E T) in Hx.
        destruct j as [|[|j]]; simpl in Hx; congruence. }
    rewrite (ServerJs_loop_transient n i w error E T) in Hx.
    unfold after in Hx. cbn [events] in Hx.
    destruct (Z.ltb_spec i (retries - 1)) as [Hlt|Hge].
    + destruct j as [|j]; simpl in Hx; [congruence|].
      apply IH in Hx; [|lia|lia]. subst x.
      destruct j as [|j].
      * now rewrite Z.add_0_r.
      * f_equal. f_equal. lia.
    + assert (n = O) by lia. subst n.
      destruct j as [|[|j]]; simpl in Hx; congruence.
Qed.

Lemma Part001_loop_delays (n : nat) :
  forall i w pending j x,
    0 <= i ->
    nth_error
      (delaysFrom pending (events (Part001.retryLoop message retries n i w)))
      j = Some x ->
    x = match j with
        | O => pending
        | S j' => 2 ^ (i + Z.of_nat j') * 1000
        end.
Proof.
  induction n as [|n IH]; intros i w pending j x Hi Hx.
  - destruct j; discriminate.
  - destruct (chatScript w (chatCalls w) message) as [text|error] eqn:E.
    { rewrite (Part001_loop_answer n i w text E) in Hx.
      destruct j as [|[|j]]; simpl in Hx; congruence. }
    destruct (transient error) eqn:T.
    2:{ rewrite (Part001_loop_fatal n i w error E T) in Hx.
        destruct j as [|[|j]]; simpl in Hx; congruence. }
    rewrite (Part001_loop_transient n i w error E T) in Hx.
    unfold after in Hx. cbn [events] in Hx.
    destruct j as [|j]; simpl in Hx; [congruence|].
    apply IH in Hx; [|lia]. subst x.
    destruct j as [|j].
    * now rewrite Z.add_0_r.
    * f_equal. f_equal. lia.
Qed.

(** What the loop throws is never a transient error: those are absorbed. *)
Lemma ServerJs_loop_thrown (n : nat) :
  forall i w error,
    out (ServerJs.retryLoop message retries n i w) = Thrown error ->
    transient error = false.
Proof.
  induction n as [|n IH]; intros i w error H.
  - injection H as <-. reflexivity.
  - destruct (chatScript w (chatCalls w) message) as [text|e] eqn:E.
    { rewrite (ServerJs_loop_answer n i w text E) in H. discriminate. }
    destruct (transient e) eqn:T.
    + rewrite (ServerJs_loop_transient n i w e E T) in H. now apply IH in H.
    + rewrite (ServerJs_loop_fatal n i w e E T) in H. now injection H as <-.
Qed.

End Relay.

Lemma chatCalls_iter (n : nat) (w : world) :
  chatCalls (Nat.iter n tickChat w) = (chatCalls w + n)%nat.
Proof.
  induction n as [|n IH]; simpl; [lia | rewrite IH; lia].
Qed.

Lemma Down_failing (message : string) (n : nat) (w : world) :
  Down message n (failing error503 w).
Proof.
  intros k _. exists error503. split; reflexivity.
Qed.

(** C2. In every run of [sendMessageWithRetry], with or without the guard
    on the last iteration, nothing is slept before the first attempt and
    the delay before attempt [j + 1] is the back-off of the failed
    attempt [j], [2 ^ j] seconds; when the three attempts of the default
    bound all fail with a transient error, the delays before them are
    0, 1 and 2 seconds. *)
Theorem C2_backoff_delays (message : string) (retries : Z) (w : world) :
  (forall j x,
      nth_error (delaysBeforeAttempts
                   (events (ServerJs.sendMessageWithRetry message retries w)))
                j = Some x ->
      x = match j with
          | O => 0
          | S j' => 2 ^ Z.of_nat j' * 1000
          end) /\
  (forall j x,
      nth_error (delaysBeforeAttempts
                   (events (Part001.sendMessageWithRetry message retries w)))
                j = Some x ->
      x = match j with
          | O => 0
          | S j' => 2 ^ Z.of_nat j' * 1000
          end) /\
  (Down message 3 w ->
   delaysBeforeAttempts (events (ServerJs.sendMessageWithRetry message 3 w))
     = [0; 1000; 2000] /\
   delaysBeforeAttempts (events (Part001.sendMessageWithRetry message 3 w))
     = [0; 1000; 2000]).
Proof.
  assert (A : forall r j x,
             nth_error (delaysBeforeAttempts
                          (events (ServerJs.sendMessageWithRetry message r w)))
                       j = Some x ->
             x = match j with O => 0 | S j' => 2 ^ Z.of_nat j' * 1000 end).
  { intros r j x H. unfold ServerJs.sendMessageWithRetry, delaysBeforeAttempts in H.
    destruct (Z.le_gt_cases 0 r) as [Hr|Hr].
    - apply ServerJs_loop_delays in H; [|lia|lia]. exact H.
    - replace (Z.to_nat r) with O in H by lia. destruct j; discriminate. }
  assert (B : forall r j x,
             nth_error (delaysBeforeAttempts
                          (events (Part001.sendMessageWithRetry message r w)))
                       j = Some x ->
             x = match j with O => 0 | S j' => 2 ^ Z.of_nat j' * 1000 end).
  { intros r j x H. unfold Part001.sendMessageWithRetry, delaysBeforeAttempts in H.
    apply Part001_loop_delays in H; [|lia]. exact H. }
  split; [apply A|]. split; [apply B|].
  intros H. split.
  - pose proof (A 3) as A3.
    destruct (ServerJs_loop_exhausted message 3 3 0 w H) as [_ [Ha _]].
    unfold delaysBeforeAttempts in *.
    rewrite <- (delaysFrom_length _ 0) in Ha.
    change (ServerJs.retryLoop message 3 3 0 w)
      with (ServerJs.sendMessageWithRetry message 3 w) in Ha.
    destruct (delaysFrom 0 (events (ServerJs.sendMessageWithRetry message 3 w)))
      as [|a [|b [|c [|]]]]; try discriminate.
    now rewrite (A3 O a eq_refl), (A3 1%nat b eq_refl), (A3 2%nat c eq_refl).
  - pose proof (B 3) as B3.
    destruct (Part001_loop_exhausted message 3 3 0 w H) as [_ [Ha _]].
    unfold delaysBeforeAttempts in *.
    rewrite <- (delaysFrom_length _ 0) in Ha.
    change (Part001.retryLoop message 3 3 0 w)
      with (Part001.sendMessageWithRetry message 3 w) in Ha.
    destruct (delaysFrom 0 (events (Part001.sendMessageWithRetry message 3 w)))
      as [|a [|b [|c [|]]]]; try discriminate.
    now rewrite (B3 O a eq_refl), (B3 1%nat b eq_refl), (B3 2%nat c eq_refl).
Qed.

Lemma C2_backoff_delays_witness :
  Down "start" 3 (failing error503 (quietWorld "")) /\
  delaysBeforeAttempts
    (events (ServerJs.sendMessageWithRetry "start" 3
               (failing error503 (quietWorld "")))) = [0; 1000; 2000].
Proof.
  split; [apply Down_failing|].
  apply (C2_backoff_delays "start" 3 (failing error503 (quietWorld ""))).
  apply Down_failing.
Defined.

(** The delay before attempt [i] is not [2 ^ i] seconds: before attempt 1
    the code sleeps one second. *)
Lemma C2_counterexample :
  ~ (forall i, (i < 3)%nat ->
       nth i (delaysBeforeAttempts
                (events (ServerJs.sendMessageWithRetry "start" 3
                           (failing error503 (quietWorld "")))))
           0 = 2 ^ Z.of_nat i * 1000).
Proof.
  intros H. assert (L : (1 < 3)%nat) by lia.
  specialize (H 1%nat L). vm_compute in H. discriminate.
Qed.

(** C4. When every one of the [retries] attempts fails with a transient
    error, [sendMessageWithRetry] throws the error of line 97, which no
    transient error is equal to, after exactly [retries] calls of the
    upstream service. *)
Theorem C4_retries_exhausted (message : string) (retries : Z) (w : world) :
  Down message (Z.to_nat retries) w ->
  let r := ServerJs.sendMessageWithRetry message retries w in
  out r = Thrown ServerJs.unavailable /\
  attempts (events r) = Z.to_nat retries /\
  chatCalls (final r) = (chatCalls w + Z.to_nat retries)%nat /\
  (forall error, transient error = true -> error <> ServerJs.unavailable).
Proof.
  intros H. cbv zeta. unfold ServerJs.sendMessageWithRetry.
  destruct (ServerJs_loop_exhausted message retries _ 0 w H) as [Ho [Ha Hf]].
  repeat split; trivial.
  - rewrite Hf. apply chatCalls_iter.
  - intros error T ->. discriminate.
Qed.

Lemma C4_retries_exhausted_witness :
  Down "start" (Z.to_nat 3) (failing error503 (quietWorld "")) /\
  out (ServerJs.sendMessageWithRetry "start" 3 (failing error503 (quietWorld "")))
    = Thrown ServerJs.unavailable /\
  attempts (events (ServerJs.sendMessageWithRetry "start" 3
                      (failing error503 (quietWorld "")))) = 3%nat.
Proof.
  split; [apply Down_failing|].
  destruct (C4_retries_exhausted "start" 3 (failing error503 (quietWorld ""))
              (Down_failing "start" _ _)) as [Ho [Ha _]].
  split; assumption.
Defined.

(** ** The transcript store: [saveMessage] *)

Ltac run_save :=
  unfold ServerJs.saveMessage, Part000.saveMessage, Part001.saveMessage,
    bind, getDb, dbInsert, statement, emit, throw;
  cbn [out final events].

Section Store.

Variables (w : world) (sender message : string).

(** The row an accepted insert adds to the table [rows]. *)
Let added (rows : list row) : list row :=
  (rows ++ [Build_row (Z.of_nat (List.length rows) + 1) sender message])%list.

Lemma ServerJs_save_unset :
  db w = None ->
  ServerJs.saveMessage sender message w =
    {| out := Returned tt; final := w;
       events := [ConsoleError "Database connection not established."] |}.
Proof. intros D. run_save. now rewrite D. Qed.

Lemma Part000_save_unset :
  db w = None ->
  Part000.saveMessage sender message w =
    {| out := Returned tt; final := w;
       events := [ConsoleError "Database connection not established."] |}.
Proof. intros D. run_save. now rewrite D. Qed.

Lemma Part001_save_unset :
  db w = None ->
  Part001.saveMessage sender message w =
    {| out := Returned tt; final := w;
       events := [ConsoleError "Database not initialized."] |}.
Proof. intros D. run_save. now rewrite D. Qed.

Lemma ServerJs_save_accepted (rows : list row) :
  db w = Some rows -> dbScript w (dbOps w) = None ->
  ServerJs.saveMessage sender message w =
    {| out := Returned tt; final := setDb (Some (added rows)) (tickDb w);
       events := [DbInsert sender message] |}.
Proof. intros D A. run_save. rewrite D. cbn. now rewrite D, A. Qed.

Lemma Part001_save_accepted (rows : list row) :
  db w = Some rows -> dbScript w (dbOps w) = None ->
  Part001.saveMessage sender message w =
    {| out := Returned tt; final := setDb (Some (added rows)) (tickDb w);
       events := [DbInsert sender message] |}.
Proof. intros D A. run_save. rewrite D. cbn. now rewrite D, A. Qed.

Lemma ServerJs_save_rejected (rows : list row) (error : jsError) :
  db w = Some rows -> dbScript w (dbOps w) = Some error ->
  ServerJs.saveMessage sender message w =
    {| out := Thrown error; final := tickDb w;
       events := [DbInsert sender message] |}.
Proof. intros D A. run_save. rewrite D. cbn. now rewrite D, A. Qed.

End Store.

(** ** The handlers *)

Section MonadFacts.

Context {A B : Type}.
Variables (m : M A) (k : A -> M B) (w : world).


Lemma bind_returned (a : A) :
  out (m w) = Returned a ->
  bind m k w = after (events (m w)) (k a (final (m w))).
Proof. intros H. unfold bind. now rewrite H. Qed.

Lemma bind_thrown (error : jsError) :
  out (m w) = Thrown error ->
  bind m k w =
    {| out := Thrown error; final := final (m w); events := events (m w) |}.
Proof. intros H. unfold bind. now rewrite H. Qed.

(** A [try] around a sequence, when its first step returns: the rest of
    the sequence runs under the same handler. *)
Lemma tryCatch_bind_returned (handler : jsError -> M B) (a : A) :
  out (m w) = Returned a ->
  tryCatch (bind m k) handler w =
    after (events (m w)) (tryCatch (k a) handler (final (m w))).
Proof.
  intros H. unfold tryCatch. rewrite (bind_returned a H).
  unfold after. simpl.
  destruct (out (k a (final (m w)))) eqn:E; simpl; [now rewrite E|].
  now rewrite app_assoc.
Qed.

(** A [try] around a sequence, when its first step throws: the handler
    runs from there. *)
Lemma tryCatch_bind_thrown (handler : jsError -> M B) (error : jsError) :
  out (m w) = Thrown error ->
  tryCatch (bind m k) handler w =
    after (events (m w)) (handler error (final (m w))).
Proof.
  intros H. unfold tryCatch. rewrite (bind_thrown error H). reflexivity.
Qed.

Lemma bind_emit (e : event) (k' : unit -> M B) :
  bind (emit e) k' w = after [e] (k' tt w).
Proof. reflexivity. Qed.

Lemma tryCatch_respond (handler : jsError -> M unit) (status : Z)
      (content : body) :
  tryCatch (respond status content) handler w =
    {| out := Returned tt; final := w;
       events := [Respond status content] |}.
Proof. reflexivity. Qed.

End MonadFacts.

Section MonadFactsEq.

Context {A B : Type}.
Variables (m : M A) (k : A -> M B) (w w1 : world) (evs : list event).

Lemma bind_ret_eq (a : A) :
  m w = {| out := Returned a; final := w1; events := evs |} ->
  bind m k w = after evs (k a w1).
Proof.
  intros E. rewrite (bind_returned m k w a) by now rewrite E.
  now rewrite E.
Qed.

Lemma bind_thr_eq (error : jsError) :
  m w = {| out := Thrown error; final := w1; events := evs |} ->
  bind m k w = {| out := Thrown error; final := w1; events := evs |}.
Proof.
  intros E. rewrite (bind_thrown m k w error) by now rewrite E.
  now rewrite E.
Qed.

Lemma tryCatch_bind_ret_eq (handler : jsError -> M B) (a : A) :
  m w = {| out := Returned a; final := w1; events := evs |} ->
  tryCatch (bind m k) handler w = after evs (tryCatch (k a) handler w1).
Proof.
  intros E. rewrite (tryCatch_bind_returned m k w handler a) by now rewrite E.
  now rewrite E.
Qed.

Lemma tryCatch_bind_thr_eq (handler : jsError -> M B) (error : jsError) :
  m w = {| out := Thrown error; final := w1; events := evs |} ->
  tryCatch (bind m k) handler w = after evs (handler error w1).
Proof.
  intros E.
  rewrite (tryCatch_bind_thrown m k w handler error) by now rewrite E.
  now rewrite E.
Qed.

End MonadFactsEq.

Lemma out_eq {A} (r : result A) (o : outcome A) (w : world)
      (evs : list event) :
  r = {| out := o; final := w; events := evs |} -> out r = o.
Proof. now intros ->. Qed.

Lemma after_eq {A} (evs : list event) (r : result A) (o : outcome A)
      (w : world) (evs' : list event) :
  r = {| out := o; final := w; events := evs' |} ->
  after evs r = {| out := o; final := w; events := (evs ++ evs')%list |}.
Proof. now intros ->. Qed.

Lemma falsy_text (text : string) : text <> "" -> falsy (Some text) = false.
Proof. intros H. now apply String.eqb_neq. Qed.

Lemma sendMessageWithRetry_answer_ServerJs (text reply : string) (w : world) :
  chatScript w (chatCalls w) text = inl reply ->
  ServerJs.sendMessageWithRetry text 3 w =
    {| out := Returned reply; final := tickChat w; events := [ChatSend text] |}.
Proof. apply ServerJs_loop_answer. Qed.

Lemma sendMessageWithRetry_answer_Part000 (text reply : string) (w : world) :
  chatScript w (chatCalls w) text = inl reply ->
  Part000.sendMessageWithRetry text 3 w =
    {| out := Returned reply; final := tickChat w; events := [ChatSend text] |}.
Proof.
  intros E. unfold Part000.sendMessageWithRetry.
  change (Z.to_nat 3) with 3%nat. cbn [Part000.retryLoop].
  unfold bind, tryCatch, chatSendMessage, ret. cbn. rewrite E. reflexivity.
Qed.

Lemma sendMessageWithRetry_answer_Part001 (text reply : string) (w : world) :
  chatScript w (chatCalls w) text = inl reply ->
  Part001.sendMessageWithRetry text 3 w =
    {| out := Returned reply; final := tickChat w; events := [ChatSend text] |}.
Proof. apply Part001_loop_answer. Qed.

(** C10. While [db] is unset, [saveMessage] returns without raising,
    changes nothing and sends nothing to the store: it only logs.  A chat
    turn whose upstream call succeeds then ends in the success response,
    with no insert sent and the transcript still unset: neither the user's
    message nor the reply is recorded.  This holds in the three variants. *)
Theorem C10_unset_store_is_silent (w : world) :
  db w = None ->
  (forall sender message,
      ServerJs.saveMessage sender message w =
        {| out := Returned tt; final := w;
           events := [ConsoleError "Database connection not established."] |} /\
      Part000.saveMessage sender message w =
        {| out := Returned tt; final := w;
           events := [ConsoleError "Database connection not established."] |} /\
      Part001.saveMessage sender message w =
        {| out := Returned tt; final := w;
           events := [ConsoleError "Database not initialized."] |}) /\
  (forall text sender reply,
      text <> "" ->
      chatScript w (chatCalls w) text = inl reply ->
      ServerJs.chat (Some text) sender w =
        {| out := Returned tt; final := tickChat w;
           events := [ ConsoleError "Database connection not established.";
                       ChatSend text;
                       ConsoleError "Database connection not established.";
                       Respond 200 (BotResponse reply) ] |} /\
      Part000.chat (Some text) sender w =
        {| out := Returned tt; final := tickChat w;
           events := [ ConsoleError "Database connection not established.";
                       ChatSend text;
                       ConsoleError "Database connection not established.";
                       Respond 200 (BotResponse reply) ] |} /\
      Part001.chat (Some text) sender w =
        {| out := Returned tt; final := tickChat w;
           events := [ ConsoleError "Database not initialized.";
                       ChatSend text;
                       ConsoleError "Database not initialized.";
                       Respond 200 (BotResponse reply) ] |}).
Proof.
  intros D. split.
  - intros sender message.
    now rewrite ServerJs_save_unset, Part000_save_unset, Part001_save_unset.
  - intros text sender reply Hne E.
    assert (D' : db (tickChat w) = None) by exact D.
    repeat split.
    + unfold ServerJs.chat. rewrite (falsy_text text Hne).
      erewrite tryCatch_bind_ret_eq by (apply ServerJs_save_unset; exact D).
      erewrite tryCatch_bind_ret_eq
        by (apply sendMessageWithRetry_answer_ServerJs; exact E).
      erewrite tryCatch_bind_ret_eq by (apply ServerJs_save_unset; exact D').
      rewrite tryCatch_respond. reflexivity.
    + unfold Part000.chat. rewrite (falsy_text text Hne).
      erewrite tryCatch_bind_ret_eq by (apply Part000_save_unset; exact D).
      erewrite tryCatch_bind_ret_eq
        by (apply sendMessageWithRetry_answer_Part000; exact E).
      erewrite tryCatch_bind_ret_eq by (apply Part000_save_unset; exact D').
      rewrite tryCatch_respond. reflexivity.
    + unfold Part001.chat. rewrite (falsy_text text Hne).
      erewrite tryCatch_bind_ret_eq by (apply Part001_save_unset; exact D).
      erewrite tryCatch_bind_ret_eq
        by (apply sendMessageWithRetry_answer_Part001; exact E).
      erewrite tryCatch_bind_ret_eq by (apply Part001_save_unset; exact D').
      rewrite tryCatch_respond. reflexivity.
Qed.

Lemma C10_unset_store_is_silent_witness :
  db (quietWorld "Happy birthday!") = None /\
  ServerJs.chat (Some "start") (Some "user") (quietWorld "Happy birthday!") =
    {| out := Returned tt; final := tickChat (quietWorld "Happy birthday!");
       events := [ ConsoleError "Database connection not established.";
                   ChatSend "start";
                   ConsoleError "Database connection not established.";
                   Respond 200 (BotResponse "Happy birthday!") ] |}.
Proof.
  split; [reflexivity|].
  apply (C10_unset_store_is_silent (quietWorld "Happy birthday!") eq_refl).
  - discriminate.
  - reflexivity.
Defined.

(** C3, as the code has it.  Once the relay has obtained [reply]: when
    [db] is unset the append of the reply is skipped without raising and
    the reply is returned in the success response; when the connection is
    established and the store rejects the insert of the reply, the catch
    block runs instead: the reply is not returned, the insert of a
    'System Error' row is attempted and, if the store accepts it, the
    caller gets the generic 500 response; if that insert is rejected too,
    the handler ends with the exception and sends no response. *)
Theorem C3_reply_and_store_failure (w : world) (text : string)
        (sender : option string) (reply : string) :
  let r1 := ServerJs.saveMessage "User" text w in
  let r2 := ServerJs.sendMessageWithRetry text 3 (final r1) in
  let r := ServerJs.chat (Some text) sender w in
  text <> "" ->
  out r1 = Returned tt ->
  out r2 = Returned reply ->
  (db (final r2) = None ->
   out r = Returned tt /\
   events r =
     (events r1 ++ events r2
        ++ [ ConsoleError "Database connection not established.";
             Respond 200 (BotResponse reply) ])%list) /\
  (forall rows error,
      db (final r2) = Some rows ->
      dbScript (final r2) (dbOps (final r2)) = Some error ->
      (dbScript (final r2) (S (dbOps (final r2))) = None ->
       out r = Returned tt /\
       events r =
         (events r1 ++ events r2
            ++ [ DbInsert "Bot" reply;
                 ConsoleError "Server Error during Chat:";
                 DbInsert "System Error"
                          ("Failed to get Gemini response for: " ++ text);
                 Respond 500
                   (ErrorBody "Internal server error. Please try again.") ])%list) /\
      (forall error',
          dbScript (final r2) (S (dbOps (final r2))) = Some error' ->
          out r = Thrown error' /\
          events r =
            (events r1 ++ events r2
               ++ [ DbInsert "Bot" reply;
                    ConsoleError "Server Error during Chat:";
                    DbInsert "System Error"
                             ("Failed to get Gemini response for: " ++ text) ])%list)).
Proof.
  intros r1 r2 r Hne H1 H2.
  assert (E : r = after (events r1)
                    (after (events r2)
                       (tryCatch
                          (ServerJs.saveMessage "Bot" reply ;;
                           respond 200 (BotResponse reply))
                          (fun error =>
                             emit (ConsoleError "Server Error during Chat:") ;;
                             ServerJs.saveMessage "System Error"
                               ("Failed to get Gemini response for: " ++ text) ;;
                             respond 500
                               (ErrorBody "Internal server error. Please try again."))
                          (final r2)))).
  { subst r r1 r2. unfold ServerJs.chat. rewrite (falsy_text text Hne).
    rewrite (tryCatch_bind_returned _ _ _ _ tt H1). cbv beta.
    rewrite (tryCatch_bind_returned _ _ _ _ reply H2). reflexivity. }
  rewrite E. clear E. generalize dependent r2. intros r2 _ .
  generalize (events r1). clear. intros evs1.
  generalize (events r2), (final r2). clear. intros evs2 w. split.
  - intros D.
    erewrite tryCatch_bind_ret_eq by (apply ServerJs_save_unset; exact D).
    rewrite tryCatch_respond. split; reflexivity.
  - intros rows error D R.
    assert (D' : db (tickDb w) = Some rows) by exact D.
    erewrite tryCatch_bind_thr_eq
      by (apply (ServerJs_save_rejected w _ _ rows error D R)).
    cbv beta. rewrite bind_emit. split.
    + intros A.
      erewrite bind_ret_eq
        by (apply (ServerJs_save_accepted (tickDb w) _ _ rows D' A)).
      split; reflexivity.
    + intros error' R'.
      erewrite bind_thr_eq
        by (apply (ServerJs_save_rejected (tickDb w) _ _ rows error' D' R')).
      split; reflexivity.
Qed.

Lemma C3_reply_and_store_failure_witness :
  events (ServerJs.chat (Some "start") (Some "user")
            (rejecting 1 errorBusy (connected (quietWorld "Happy birthday!")))) =
    [ DbInsert "User" "start"; ChatSend "start"; DbInsert "Bot" "Happy birthday!";
      ConsoleError "Server Error during Chat:";
      DbInsert "System Error" "Failed to get Gemini response for: start";
      Respond 500 (ErrorBody "Internal server error. Please try again.") ].
Proof.
  pose proof (C3_reply_and_store_failure
                (rejecting 1 errorBusy (connected (quietWorld "Happy birthday!")))
                "start" (Some "user") "Happy birthday!") as H.
  cbv zeta in H.
  assert (Hne : "start" <> "") by discriminate.
  destruct (H Hne eq_refl eq_refl) as [_ H'].
  destruct (H' [Build_row 1 "User" "start"] errorBusy eq_refl eq_refl) as [H'' _].
  destruct (H'' eq_refl) as [_ E].
  exact E.
Defined.

(** The store rejects the insert of the reply that the relay has obtained:
    the caller gets the 500 response, not the reply. *)
Lemma C3_counterexample :
  let w := rejecting 1 errorBusy (connected (quietWorld "Happy birthday!")) in
  let r1 := ServerJs.saveMessage "User" "start" w in
  let r2 := ServerJs.sendMessageWithRetry "start" 3 (final r1) in
  out r1 = Returned tt /\
  out r2 = Returned "Happy birthday!" /\
  out (ServerJs.saveMessage "Bot" "Happy birthday!" (final r2)) = Thrown errorBusy /\
  responses (events (ServerJs.chat (Some "start") (Some "user") w)) =
    [(500, ErrorBody "Internal server error. Please try again.")].
Proof.
  repeat split.
Qed.

(** C5, as the code has it.  In the client the content of the input field
    is given to the runtime's [trim], and a content for which it returns
    the empty text is dropped at once: nothing is shown, the local check
    is not evaluated, the stage is kept and no request is sent.  By the
    definition of [String.prototype.trim] these are the empty text and the
    texts of white space only, in the whole of the white space of
    ECMAScript (U+00A0 and U+3000 as well as the ASCII blanks); the
    statement holds whatever [trim] computes.  Every other content is
    shown.  In the server a message that is absent or empty is answered
    with status 400 and nothing else happens: no insert, no call of the
    relay. *)
Theorem C5_blank_input_rejected :
  (forall trim toLowerCase prompts answers server stage value,
      (trim value = "" ->
       Script.processInput trim toLowerCase prompts answers server stage value
       = (stage, [])) /\
      (trim value <> "" ->
       exists rest,
         snd (Script.processInput trim toLowerCase prompts answers server
                stage value)
         = Script.AddMessage (trim value) "user" :: rest)) /\
  (forall w message sender,
      falsy message = true ->
      ServerJs.chat message sender w =
        {| out := Returned tt; final := w;
           events := [Respond 400 (ErrorBody "No message provided.")] |}).
Proof.
  split.
  - intros trim toLowerCase prompts answers server stage value. split.
    + now apply processInput_blank.
    + intros E.
      destruct (processInput_shown trim toLowerCase prompts answers server
                  stage value E) as [rest ->].
      eexists; reflexivity.
  - intros w [text|] sender F; unfold ServerJs.chat; [rewrite F|]; reflexivity.
Qed.

Lemma C5_blank_input_rejected_witness :
  Script.processInput AsciiText.trim AsciiText.toLowerCase Script.prompts Script.answers
    (fun _ => Script.NetworkError) 1 "   " = (1, []) /\
  ServerJs.chat (Some "") (Some "user") (connected (quietWorld "Happy birthday!")) =
    {| out := Returned tt; final := connected (quietWorld "Happy birthday!");
       events := [Respond 400 (ErrorBody "No message provided.")] |}.
Proof.
  split.
  - apply (proj1 C5_blank_input_rejected). reflexivity.
  - apply (proj2 C5_blank_input_rejected). reflexivity.
Defined.

(** A message of white space only (three spaces, which [trim] reduces to the
    empty text) is not rejected by the server: it is recorded, relayed and
    answered. *)
Lemma C5_counterexample :
  AsciiText.trim "   " = "" /\
  ServerJs.chat (Some "   ") (Some "user")
                (connected (quietWorld "Happy birthday!")) =
    {| out := Returned tt;
       final := setDb (Some [ Build_row 1 "User" "   ";
                              Build_row 2 "Bot" "Happy birthday!" ])
                      (tickDb (tickDb (tickChat
                         (connected (quietWorld "Happy birthday!")))));
       events := [ DbInsert "User" "   "; ChatSend "   ";
                   DbInsert "Bot" "Happy birthday!";
                   Respond 200 (BotResponse "Happy birthday!") ] |}.
Proof.
  split; reflexivity.
Qed.

(** C8, as the code has it.  When the relay throws, whatever the error:
    if the connection is established and the store accepts the insert,
    the row of the failure (sender 'System Error' in [server.js], 'System'
    in the second SQLite variant) is inserted before the response, which is
    status 500 with a fixed text; if [db] is unset, nothing is inserted and
    the same response is sent. *)
Theorem C8_relay_failure_recorded (w : world) (text : string)
        (sender : option string) (error : jsError) :
  text <> "" ->
  (let r1 := ServerJs.saveMessage "User" text w in
   let r2 := ServerJs.sendMessageWithRetry text 3 (final r1) in
   let r := ServerJs.chat (Some text) sender w in
   out r1 = Returned tt ->
   out r2 = Thrown error ->
   (forall rows,
       db (final r2) = Some rows ->
       dbScript (final r2) (dbOps (final r2)) = None ->
       out r = Returned tt /\
       events r =
         (events r1 ++ events r2
            ++ [ ConsoleError "Server Error during Chat:";
                 DbInsert "System Error"
                          ("Failed to get Gemini response for: " ++ text);
                 Respond 500
                   (ErrorBody "Internal server error. Please try again.") ])%list /\
       db (final r) =
         Some (rows ++ [Build_row (Z.of_nat (List.length rows) + 1)
                          "System Error"
                          ("Failed to get Gemini response for: " ++ text)])%list) /\
   (db (final r2) = None ->
    out r = Returned tt /\
    events r =
      (events r1 ++ events r2
         ++ [ ConsoleError "Server Error during Chat:";
              ConsoleError "Database connection not established.";
              Respond 500
                (ErrorBody "Internal server error. Please try again.") ])%list /\
    final r = final r2)) /\
  (let r1 := Part001.saveMessage (Part001.senderOrUser sender) text w in
   let r2 := Part001.sendMessageWithRetry text 3 (final r1) in
   let r := Part001.chat (Some text) sender w in
   out r1 = Returned tt ->
   out r2 = Thrown error ->
   (forall rows,
       db (final r2) = Some rows ->
       dbScript (final r2) (dbOps (final r2)) = None ->
       out r = Returned tt /\
       events r =
         (events r1 ++ events r2
            ++ [ ConsoleError "Chat Error:";
                 DbInsert "System" "Gemini failure during reply.";
                 Respond 500 (ErrorBody "AI model failed. Try again.") ])%list /\
       db (final r) =
         Some (rows ++ [Build_row (Z.of_nat (List.length rows) + 1)
                          "System" "Gemini failure during reply."])%list) /\
   (db (final r2) = None ->
    out r = Returned tt /\
    events r =
      (events r1 ++ events r2
         ++ [ ConsoleError "Chat Error:";
              ConsoleError "Database not initialized.";
              Respond 500 (ErrorBody "AI model failed. Try again.") ])%list /\
    final r = final r2)).
Proof.
  intros Hne. split; intros r1 r2 r H1 H2.
  - assert (E : r = after (events r1)
                      (after (events r2)
                         ((emit (ConsoleError "Server Error during Chat:") ;;
                           ServerJs.saveMessage "System Error"
                             ("Failed to get Gemini response for: " ++ text) ;;
                           respond 500
                             (ErrorBody "Internal server error. Please try again."))
                            (final r2)))).
    { subst r r1 r2. unfold ServerJs.chat. rewrite (falsy_text text Hne).
      rewrite (tryCatch_bind_returned _ _ _ _ tt H1). cbv beta.
      rewrite (tryCatch_bind_thrown _ _ _ _ error H2). reflexivity. }
    rewrite E. clear E H1 H2. rewrite bind_emit.
    generalize (events r1), (events r2), (final r2). clear.
    intros evs1 evs2 w. split.
    + intros rows D A.
      erewrite bind_ret_eq by (apply (ServerJs_save_accepted w _ _ rows D A)).
      repeat split.
    + intros D.
      erewrite bind_ret_eq by (apply ServerJs_save_unset; exact D).
      repeat split.
  - assert (E : r = after (events r1)
                      (after (events r2)
                         ((emit (ConsoleError "Chat Error:") ;;
                           Part001.saveMessage "System"
                             "Gemini failure during reply." ;;
                           respond 500 (ErrorBody "AI model failed. Try again."))
                            (final r2)))).
    { subst r r1 r2. unfold Part001.chat. rewrite (falsy_text text Hne).
      rewrite (tryCatch_bind_returned _ _ _ _ tt H1). cbv beta.
      rewrite (tryCatch_bind_thrown _ _ _ _ error H2). reflexivity. }
    rewrite E. clear E H1 H2. rewrite bind_emit.
    generalize (events r1), (events r2), (final r2). clear.
    intros evs1 evs2 w. split.
    + intros rows D A.
      erewrite bind_ret_eq by (apply (Part001_save_accepted w _ _ rows D A)).
      repeat split.
    + intros D.
      erewrite bind_ret_eq by (apply Part001_save_unset; exact D).
      repeat split.
Qed.

Lemma C8_relay_failure_recorded_witness :
  events (ServerJs.chat (Some "start") (Some "user")
            (failing error400 (connected (quietWorld "")))) =
    [ DbInsert "User" "start"; ChatSend "start";
      ConsoleError "Server Error during Chat:";
      DbInsert "System Error" "Failed to get Gemini response for: start";
      Respond 500 (ErrorBody "Internal server error. Please try again.") ].
Proof.
  assert (Hne : "start" <> "") by discriminate.
  destruct (C8_relay_failure_recorded
              (failing error400 (connected (quietWorld "")))
              "start" (Some "user") error400 Hne) as [H _].
  cbv zeta in H.
  destruct (H eq_refl eq_refl) as [H' _].
  destruct (H' [Build_row 1 "User" "start"] eq_refl eq_refl) as [_ [E _]].
  exact E.
Defined.

(** The second SQLite variant when the data base file cannot be opened:
    the failure is logged, [db] stays unset and the server listens. *)
Lemma Part001_start_without_database (w : world) (error : jsError) :
  openScript w = Some error ->
  Part001.start w =
    {| out := Returned tt; final := w;
       events := [ConsoleError "Database Initialization Error:"; Listen] |}.
Proof.
  intros O. unfold Part001.start, Part001.initializeDatabase, bind, tryCatch,
              dbOpen, throw, emit.
  cbn. rewrite O. reflexivity.
Qed.

(** In that state a turn on which the relay fails is answered with the 500
    response while no row is inserted and nothing is recorded. *)
Lemma C8_counterexample :
  let w := final (Part001.start
                    (unopenable errorCantOpen (failing error400 (quietWorld "")))) in
  let r := Part001.chat (Some "start") (Some "user") w in
  db w = None /\
  out (Part001.sendMessageWithRetry "start" 3 w) = Thrown error400 /\
  responses (events r) = [(500, ErrorBody "AI model failed. Try again.")] /\
  inserts (events r) = [] /\
  db (final r) = None.
Proof.
  repeat split.
Qed.

(** C9 at the input where the variants part.  With [db] unset, [server.js]
    and the first SQLite variant answer the admin request with status 503
    and send nothing to the store; the second SQLite variant, which has no
    test of [db], runs into the type error of calling a method of
    [undefined], catches it and answers with status 500. *)
Theorem C9_admin_store_not_ready (w : world) :
  db w = None ->
  ServerJs.adminConversations w =
    {| out := Returned tt; final := w;
       events := [Respond 503 (ErrorBody "Database not ready.")] |} /\
  Part000.adminConversations w =
    {| out := Returned tt; final := w;
       events := [Respond 503 (ErrorBody "Database not ready.")] |} /\
  Part001.adminConversations w =
    {| out := Returned tt; final := w;
       events := [ ConsoleError "Admin Fetch Error:";
                   Respond 500 (ErrorBody "Could not fetch conversations.") ] |}.
Proof.
  intros D.
  unfold ServerJs.adminConversations, Part000.adminConversations,
    Part001.adminConversations, bind, tryCatch, getDb, dbSelectAll, statement,
    respond, emit, throw.
  cbn. rewrite D. cbn. repeat split.
Qed.

Lemma C9_admin_store_not_ready_witness :
  let w := final (Part001.start (unopenable errorCantOpen (quietWorld ""))) in
  db w = None /\
  responses (events (Part001.adminConversations w)) =
    [(500, ErrorBody "Could not fetch conversations.")] /\
  responses (events (ServerJs.adminConversations w)) =
    [(503, ErrorBody "Database not ready.")].
Proof.
  cbv zeta.
  destruct (C9_admin_store_not_ready
              (final (Part001.start (unopenable errorCantOpen (quietWorld ""))))
              eq_refl) as [E [_ E']].
  rewrite E, E'. repeat split.
Defined.

(** ** The theorems of the gatekeeper on the tables of the repository *)

Lemma C1_evaluate_advance_or_retry_witness :
  Script.evaluate AsciiText.toLowerCase Script.answers 0 "Please START"
    = Some (Script.Advance, 1) /\
  Script.evaluate AsciiText.toLowerCase Script.answers 1 "banana"
    = Some (Script.Retry, 1) /\
  fst (Script.processInput AsciiText.trim AsciiText.toLowerCase
         Script.prompts Script.answers (fun _ => Script.NetworkError)
         0 "  Please START ") = 1 /\
  fst (Script.processInput AsciiText.trim AsciiText.toLowerCase
         Script.prompts Script.answers (fun _ => Script.NetworkError)
         1 " banana ") = 1.
Proof.
  assert (H0 : 0 <= 0 < Z.of_nat (List.length Script.answers)) by (simpl; lia).
  assert (H1 : 0 <= 1 < Z.of_nat (List.length Script.answers)) by (simpl; lia).
  destruct (C1_evaluate_advance_or_retry AsciiText.trim AsciiText.toLowerCase
              Script.prompts Script.answers (fun _ => Script.NetworkError) 0 H0)
    as [E0 P0].
  destruct (C1_evaluate_advance_or_retry AsciiText.trim AsciiText.toLowerCase
              Script.prompts Script.answers (fun _ => Script.NetworkError) 1 H1)
    as [E1 P1].
  split; [|split; [|split]].
  - apply (proj1 (E0 "Please START")). apply isCorrect_iff. reflexivity.
  - apply (proj2 (E1 "banana")). intros H. apply isCorrect_iff in H. discriminate.
  - apply (proj1 (P0 "  Please START ")); [discriminate|].
    apply isCorrect_iff. reflexivity.
  - apply (proj1 (proj2 (P1 " banana "))).
    intros H. apply isCorrect_iff in H. discriminate.
Defined.

Lemma C6_terminal_sequence_witness :
  Script.allFetches
    (snd (Script.processInput AsciiText.trim AsciiText.toLowerCase
            Script.prompts Script.answers
            (fun _ => Script.Body (Some "unused")) 3
            " the [final password keyword]! ")) = [] /\
  fst (Script.processInput AsciiText.trim AsciiText.toLowerCase
         Script.prompts Script.answers
         (fun _ => Script.Body (Some "unused")) 3
         " the [final password keyword]! ") = 4.
Proof.
  assert (Hacc : Script.Accepted AsciiText.toLowerCase Script.answers 3
                   (AsciiText.trim " the [final password keyword]! "))
    by (apply isCorrect_iff; reflexivity).
  assert (Hne : AsciiText.trim " the [final password keyword]! " <> "")
    by discriminate.
  assert (H0 : 0 <= 3) by lia.
  destruct (C6_terminal_sequence AsciiText.trim AsciiText.toLowerCase
              Script.prompts Script.answers
              (fun _ => Script.Body (Some "unused")) 3
              " the [final password keyword]! " eq_refl H0 eq_refl Hne Hacc)
    as [E F].
  split; [exact F | now rewrite E].
Defined.

Lemma C7_stage_monotone_witness :
  Script.stages AsciiText.trim AsciiText.toLowerCase
    Script.prompts Script.answers (fun _ => Script.NetworkError)
    Script.initialStage
    ["start"; "banana"; "   "; "the [coffee shop alt]"; "[Movie Title Alt]";
     "[final password keyword]"; "start"] = [0; 1; 1; 1; 2; 3; 4; 4] /\
  StronglySorted Z.le
    (Script.stages AsciiText.trim AsciiText.toLowerCase
       Script.prompts Script.answers (fun _ => Script.NetworkError)
       Script.initialStage
       ["start"; "banana"; "   "; "the [coffee shop alt]"; "[Movie Title Alt]";
        "[final password keyword]"; "start"]).
Proof.
  split; [reflexivity|].
  apply (C7_stage_monotone AsciiText.trim AsciiText.toLowerCase
           Script.prompts Script.answers (fun _ => Script.NetworkError)).
Defined.

(** ** More on the relay *)

(** The first SQLite variant has the loop of [server.js]. *)
Lemma Part000_loop_eq : Part000.retryLoop = ServerJs.retryLoop.
Proof. reflexivity. Qed.

Lemma Part000_send_eq :
  Part000.sendMessageWithRetry = ServerJs.sendMessageWithRetry.
Proof. reflexivity. Qed.

Lemma iter_tickChat (n : nat) (w : world) :
  db (Nat.iter n tickChat w) = db w /\
  stored (Nat.iter n tickChat w) = stored w /\
  openScript (Nat.iter n tickChat w) = openScript w /\
  dbScript (Nat.iter n tickChat w) = dbScript w /\
  dbOps (Nat.iter n tickChat w) = dbOps w /\
  chatScript (Nat.iter n tickChat w) = chatScript w /\
  chatCalls (Nat.iter n tickChat w) = (chatCalls w + n)%nat.
Proof.
  induction n as [|n IH]; simpl.
  - repeat split. lia.
  - destruct IH as (? & ? & ? & ? & ? & ? & IH). repeat split; trivial.
    rewrite IH. lia.
Qed.

Lemma iter_tickChat_listing (n : nat) (w : world) :
  listing (Nat.iter n tickChat w) = listing w.
Proof. induction n as [|n IH]; [reflexivity | exact IH]. Qed.

Lemma totalSleep_app (evs evs' : list event) :
  totalSleep (evs ++ evs') = totalSleep evs + totalSleep evs'.
Proof.
  induction evs as [|e evs IH]; [reflexivity|].
  destruct e; simpl; rewrite ?IH; lia.
Qed.

Section RelayRuns.

Variable message : string.
Variable retries : Z.

(** What every run of the loop does, whatever the upstream service
    answers. *)
Lemma ServerJs_loop_run (n : nat) :
  forall i w,
    let r := ServerJs.retryLoop message retries n i w in
    (attempts (events r) <= n)%nat /\
    final r = Nat.iter (attempts (events r)) tickChat w /\
    Forall (isRelayEvent message) (events r).
Proof.
  induction n as [|n IH]; intros i w; cbv zeta.
  - split; [apply Nat.le_refl | split; [reflexivity | constructor]].
  - destruct (chatScript w (chatCalls w) message) as [text|error] eqn:E.
    { rewrite (ServerJs_loop_answer message retries n i w text E).
      split; [unfold attempts; simpl; lia | split; [reflexivity | repeat constructor]]. }
    destruct (transient error) eqn:T.
    2:{ rewrite (ServerJs_loop_fatal message retries n i w error E T).
        split; [unfold attempts; simpl; lia | split; [reflexivity | repeat constructor]]. }
    rewrite (ServerJs_loop_transient message retries n i w error E T).
    destruct (IH (i + 1) (tickChat w)) as [Ha [Hf He]].
    unfold after. cbn [out final events].
    rewrite attempts_app.
    replace (attempts ([ChatSend message; ConsoleWarn (status error) (2 ^ i)]
                         ++ (if i <? retries - 1
                             then [Sleep (2 ^ i * 1000)] else [])))
      with 1%nat by (now destruct (i <? retries - 1)).
    split; [|split].
    + lia.
    + rewrite Hf. cbn [Nat.add]. symmetry. apply Nat.iter_succ_r.
    + apply Forall_app. split; [|exact He].
      destruct (i <? retries - 1); repeat constructor.
Qed.

Lemma Part001_loop_run (n : nat) :
  forall i w,
    let r := Part001.retryLoop message retries n i w in
    (attempts (events r) <= n)%nat /\
    final r = Nat.iter (attempts (events r)) tickChat w /\
    Forall (isRelayEvent message) (events r).
Proof.
  induction n as [|n IH]; intros i w; cbv zeta.
  - split; [apply Nat.le_refl | split; [reflexivity | constructor]].
  - destruct (chatScript w (chatCalls w) message) as [text|error] eqn:E.
    { rewrite (Part001_loop_answer message retries n i w text E).
      split; [unfold attempts; simpl; lia | split; [reflexivity | repeat constructor]]. }
    destruct (transient error) eqn:T.
    2:{ rewrite (Part001_loop_fatal message retries n i w error E T).
        split; [unfold attempts; simpl; lia | split; [reflexivity | repeat constructor]]. }
    rewrite (Part001_loop_transient message retries n i w error E T).
    destruct (IH (i + 1) (tickChat w)) as [Ha [Hf He]].
    unfold after. cbn [out final events].
    change (attempts
              ([ChatSend message; ConsoleWarn (status error) (2 ^ i);
                Sleep (2 ^ i * 1000)]
                 ++ events (Part001.retryLoop message retries n (i + 1) (tickChat w))))
      with (S (attempts
                 (events (Part001.retryLoop message retries n (i + 1) (tickChat w))))).
    split; [|split].
    + lia.
    + rewrite Hf. symmetry. apply Nat.iter_succ_r.
    + repeat constructor. exact He.
Qed.

Lemma Part001_loop_thrown (n : nat) :
  forall i w error,
    out (Part001.retryLoop message retries n i w) = Thrown error ->
    transient error = false.
Proof.
  induction n as [|n IH]; intros i w error H.
  - injection H as <-. reflexivity.
  - destruct (chatScript w (chatCalls w) message) as [text|e] eqn:E.
    { rewrite (Part001_loop_answer message retries n i w text E) in H. discriminate. }
    destruct (transient e) eqn:T.
    + rewrite (Part001_loop_transient message retries n i w e E T) in H.
      now apply IH in H.
    + rewrite (Part001_loop_fatal message retries n i w e E T) in H.
      now injection H as <-.
Qed.

(** After [k] transient failures the loop ends with what the next call
    gives, if an iteration is left for it. *)
Lemma ServerJs_loop_then (k : nat) :
  forall n i w answer,
    (k < n)%nat ->
    DownThen message k answer w ->
    (forall error, answer = inr error -> transient error = false) ->
    let r := ServerJs.retryLoop message retries n i w in
    out r = match answer with
            | inl text => Returned text
            | inr error => Thrown error
            end /\
    attempts (events r) = S k.
Proof.
  induction k as [|k IH]; intros n i w answer Hk [Hd Ha] Hf; cbv zeta.
  - destruct n as [|n]; [lia|]. rewrite Nat.add_0_r in Ha.
    destruct answer as [text|error].
    + rewrite (ServerJs_loop_answer message retries n i w text Ha). now split.
    + rewrite (ServerJs_loop_fatal message retries n i w error Ha (Hf _ eq_refl)).
      now split.
  - destruct n as [|n]; [lia|].
    destruct (Down_now message k w Hd) as [error [E T]].
    rewrite (ServerJs_loop_transient message retries n i w error E T).
    assert (H' : DownThen message k answer (tickChat w)).
    { split; [now apply Down_tick|]. simpl. now rewrite Nat.add_succ_r in Ha. }
    destruct (IH n (i + 1) (tickChat w) answer ltac:(lia) H' Hf) as [Ho Hn].
    unfold after. cbn [out final events]. split; [exact Ho|].
    rewrite attempts_app, Hn. now destruct (i <? retries - 1).
Qed.

Lemma Part001_loop_then (k : nat) :
  forall n i w answer,
    (k < n)%nat ->
    DownThen message k answer w ->
    (forall error, answer = inr error -> transient error = false) ->
    let r := Part001.retryLoop message retries n i w in
    out r = match answer with
            | inl text => Returned text
            | inr error => Thrown error
            end /\
    attempts (events r) = S k.
Proof.
  induction k as [|k IH]; intros n i w answer Hk [Hd Ha] Hf; cbv zeta.
  - destruct n as [|n]; [lia|]. rewrite Nat.add_0_r in Ha.
    destruct answer as [text|error].
    + rewrite (Part001_loop_answer message retries n i w text Ha). now split.
    + rewrite (Part001_loop_fatal message retries n i w error Ha (Hf _ eq_refl)).
      now split.
  - destruct n as [|n]; [lia|].
    destruct (Down_now message k w Hd) as [error [E T]].
    rewrite (Part001_loop_transient message retries n i w error E T).
    assert (H' : DownThen message k answer (tickChat w)).
    { split; [now apply Down_tick|]. simpl. now rewrite Nat.add_succ_r in Ha. }
    destruct (IH n (i + 1) (tickChat w) answer ltac:(lia) H' Hf) as [Ho Hn].
    unfold after. cbn [out final events]. split; [exact Ho|].
    rewrite attempts_app, Hn. reflexivity.
Qed.

End RelayRuns.

Lemma relay_events_quiet (message : string) (evs : list event) :
  Forall (isRelayEvent message) evs ->
  queries evs = [] /\ responses evs = [] /\ inserts evs = [].
Proof.
  induction 1 as [|e evs He _ IH]; [repeat split|].
  destruct IH as [Q [R I]].
  destruct e; try contradiction; simpl; auto.
Qed.

Section RelaySleep.

Variable message : string.
Variable retries : Z.

(** The time the loop of [server.js] can sleep from iteration [i] on, with
    [n] iterations to go: the back-offs of all but the last. *)
Lemma ServerJs_loop_sleep (n : nat) :
  forall i w,
    i + Z.of_nat n = retries -> 0 <= i ->
    let r := ServerJs.retryLoop message retries n i w in
    let most := match n with
                | O => 0
                | S n' => (2 ^ (i + Z.of_nat n') - 2 ^ i) * 1000
                end in
    0 <= totalSleep (events r) <= most /\
    (Down message n w -> totalSleep (events r) = most).
Proof.
  induction n as [|n IH]; intros i w Hn Hi; cbv zeta.
  - simpl. split; [lia | reflexivity].
  - assert (P : 0 < 2 ^ i) by (apply Z.pow_pos_nonneg; lia).
    assert (Mono : 2 ^ i <= 2 ^ (i + Z.of_nat n))
      by (apply Z.pow_le_mono_r; lia).
    destruct (chatScript w (chatCalls w) message) as [text|error] eqn:E.
    { rewrite (ServerJs_loop_answer message retries n i w text E). simpl.
      split; [lia|]. intros D. destruct (Down_now message n w D) as [e [E' _]].
      congruence. }
    destruct (transient error) eqn:T.
    2:{ rewrite (ServerJs_loop_fatal message retries n i w error E T). simpl.
        split; [lia|]. intros D. destruct (Down_now message n w D) as [e [E' T']].
        congruence. }
    rewrite (ServerJs_loop_transient message retries n i w error E T).
    unfold after. cbn [events]. rewrite totalSleep_app.
    specialize (IH (i + 1) (tickChat w)). cbv zeta in IH.
    destruct n as [|n].
    + replace (i <? retries - 1) with false by (symmetry; apply Z.ltb_ge; lia).
      simpl. rewrite Z.add_0_r. split; [lia | intros _; lia].
    + replace (i <? retries - 1) with true by (symmetry; apply Z.ltb_lt; lia).
      destruct IH as [[L U] Eq]; [lia | lia |].
      replace (i + 1 + Z.of_nat n) with (i + Z.of_nat (S n)) in * by lia.
      assert (S2 : 2 ^ (i + 1) = 2 * 2 ^ i)
        by (rewrite Z.pow_add_r by lia; lia).
      cbn [totalSleep app]. split; [lia|].
      intros D. rewrite (Eq (Down_tick message (S n) w D)). lia.
Qed.

(** In the second SQLite variant the back-off of the last iteration is
    slept too. *)
Lemma Part001_loop_sleep (n : nat) :
  forall i w,
    0 <= i ->
    let r := Part001.retryLoop message retries n i w in
    let most := (2 ^ (i + Z.of_nat n) - 2 ^ i) * 1000 in
    0 <= totalSleep (events r) <= most /\
    (Down message n w -> totalSleep (events r) = most).
Proof.
  induction n as [|n IH]; intros i w Hi; cbv zeta.
  - simpl. rewrite Z.add_0_r. split; [lia | intros _; lia].
  - assert (P : 0 < 2 ^ i) by (apply Z.pow_pos_nonneg; lia).
    assert (Mono : 2 ^ (i + 1) <= 2 ^ (i + Z.of_nat (S n)))
      by (apply Z.pow_le_mono_r; lia).
    assert (S2 : 2 ^ (i + 1) = 2 * 2 ^ i)
      by (rewrite Z.pow_add_r by lia; lia).
    destruct (chatScript w (chatCalls w) message) as [text|error] eqn:E.
    { rewrite (Part001_loop_answer message retries n i w text E). simpl.
      split; [lia|]. intros D. destruct (Down_now message n w D) as [e [E' _]].
      congruence. }
    destruct (transient error) eqn:T.
    2:{ rewrite (Part001_loop_fatal message retries n i w error E T). simpl.
        split; [lia|]. intros D. destruct (Down_now message n w D) as [e [E' T']].
        congruence. }
    rewrite (Part001_loop_transient message retries n i w error E T).
    unfold after. cbn [events totalSleep app].
    destruct (IH (i + 1) (tickChat w)) as [[L U] Eq]; [lia|].
    replace (i + 1 + Z.of_nat n) with (i + Z.of_nat (S n)) in * by lia.
    split; [lia|].
    intros D. rewrite (Eq (Down_tick message n w D)). lia.
Qed.

End RelaySleep.

Lemma relay_frame_of_run (message : string) (w : world) (r : result string) :
  final r = Nat.iter (attempts (events r)) tickChat w ->
  Forall (isRelayEvent message) (events r) ->
  RelayFrame message w r.
Proof.
  intros Hf He. unfold RelayFrame. rewrite Hf.
  destruct (iter_tickChat (attempts (events r)) w) as (? & ? & ? & ? & ? & ? & ?).
  repeat split; trivial.
Qed.

Lemma DownThen_flaky (message : string) (k : nat) (answer : string + jsError)
      (w : world) :
  DownThen message k answer (flaky k answer w).
Proof.
  split.
  - intros j Hj. exists error503. simpl.
    destruct (Nat.ltb_spec j k); [now split | lia].
  - simpl. destruct (Nat.ltb_spec k k); [lia | reflexivity].
Qed.

(** X1. Whatever the upstream service answers, [sendMessageWithRetry] calls it
    at most [retries] times; with a bound of zero or less it calls nothing
    and throws at once. *)
Theorem relay_attempts_bounded (message : string) (retries : Z) (w : world) :
  ((attempts (events (ServerJs.sendMessageWithRetry message retries w))
    <= Z.to_nat retries)%nat /\
   (attempts (events (Part000.sendMessageWithRetry message retries w))
    <= Z.to_nat retries)%nat /\
   (attempts (events (Part001.sendMessageWithRetry message retries w))
    <= Z.to_nat retries)%nat) /\
  (retries <= 0 ->
   ServerJs.sendMessageWithRetry message retries w =
     {| out := Thrown ServerJs.unavailable; final := w; events := [] |} /\
   Part000.sendMessageWithRetry message retries w =
     {| out := Thrown Part000.unavailable; final := w; events := [] |} /\
   Part001.sendMessageWithRetry message retries w =
     {| out := Thrown Part001.unavailable; final := w; events := [] |}).
Proof.
  split.
  - rewrite Part000_send_eq.
    unfold ServerJs.sendMessageWithRetry, Part001.sendMessageWithRetry.
    pose proof (ServerJs_loop_run message retries (Z.to_nat retries) 0 w) as [A _].
    pose proof (Part001_loop_run message retries (Z.to_nat retries) 0 w) as [B _].
    auto.
  - intros H.
    unfold ServerJs.sendMessageWithRetry, Part000.sendMessageWithRetry,
      Part001.sendMessageWithRetry.
    replace (Z.to_nat retries) with O by lia. repeat split.
Qed.

Lemma relay_attempts_bounded_witness :
  (attempts (events (ServerJs.sendMessageWithRetry "start" 3
                       (failing error503 (quietWorld ""))))
   <= 3)%nat /\
  out (ServerJs.sendMessageWithRetry "start" 0 (quietWorld "Hello")) =
    Thrown ServerJs.unavailable.
Proof.
  split.
  - apply (relay_attempts_bounded "start" 3 (failing error503 (quietWorld ""))).
  - destruct (relay_attempts_bounded "start" 0 (quietWorld "Hello")) as [_ H].
    destruct H as [E _]; [lia|]. now rewrite E.
Defined.

(** X2. A run of [sendMessageWithRetry] only calls the upstream service with
    the message it was given, warns and sleeps: it sends nothing to the
    store, answers no request and leaves [db] and the scripts as they
    were, in the three variants. *)
Theorem relay_leaves_store_alone (message : string) (retries : Z) (w : world) :
  RelayFrame message w (ServerJs.sendMessageWithRetry message retries w) /\
  RelayFrame message w (Part000.sendMessageWithRetry message retries w) /\
  RelayFrame message w (Part001.sendMessageWithRetry message retries w) /\
  (forall r, RelayFrame message w r ->
             queries (events r) = [] /\ responses (events r) = [] /\
             inserts (events r) = []).
Proof.
  rewrite Part000_send_eq.
  unfold ServerJs.sendMessageWithRetry, Part001.sendMessageWithRetry.
  destruct (ServerJs_loop_run message retries (Z.to_nat retries) 0 w) as [_ [F E]].
  destruct (Part001_loop_run message retries (Z.to_nat retries) 0 w) as [_ [F' E']].
  split; [now apply relay_frame_of_run|].
  split; [now apply relay_frame_of_run|].
  split; [now apply relay_frame_of_run|].
  intros r [He _]. now apply (relay_events_quiet message).
Qed.

(** X3. When the upstream service fails [k] times with a transient error and
    then answers, and [k] is below the bound, [sendMessageWithRetry] returns
    that answer after exactly [k + 1] calls. *)
Theorem relay_recovers (message : string) (retries : Z) (w : world)
        (k : nat) (text : string) :
  Z.of_nat k < retries ->
  DownThen message k (inl text) w ->
  (out (ServerJs.sendMessageWithRetry message retries w) = Returned text /\
   attempts (events (ServerJs.sendMessageWithRetry message retries w)) = S k) /\
  (out (Part000.sendMessageWithRetry message retries w) = Returned text /\
   attempts (events (Part000.sendMessageWithRetry message retries w)) = S k) /\
  (out (Part001.sendMessageWithRetry message retries w) = Returned text /\
   attempts (events (Part001.sendMessageWithRetry message retries w)) = S k).
Proof.
  intros Hk H. rewrite Part000_send_eq.
  unfold ServerJs.sendMessageWithRetry, Part001.sendMessageWithRetry.
  assert (Hn : (k < Z.to_nat retries)%nat) by lia.
  assert (Hf : forall error, @inl string jsError text = inr error ->
                             transient error = false) by discriminate.
  pose proof (ServerJs_loop_then message retries k _ 0 w _ Hn H Hf) as A.
  pose proof (Part001_loop_then message retries k _ 0 w _ Hn H Hf) as B.
  cbv zeta in A, B. auto.
Qed.

Lemma relay_recovers_witness :
  out (ServerJs.sendMessageWithRetry "start" 3
         (flaky 2 (inl "Welcome back") (quietWorld ""))) = Returned "Welcome back" /\
  attempts (events (ServerJs.sendMessageWithRetry "start" 3
                      (flaky 2 (inl "Welcome back") (quietWorld "")))) = 3%nat.
Proof.
  assert (H : Z.of_nat 2 < 3) by lia.
  apply (relay_recovers "start" 3 (flaky 2 (inl "Welcome back") (quietWorld ""))
           2 "Welcome back" H (DownThen_flaky _ _ _ _)).
Defined.

(** X4. An error of the upstream service that is not a 500 or a 503 ends the
    run at once: it is thrown as it is, and no call follows it, also after
    transient failures. *)
Theorem relay_fatal_error_immediate (message : string) (retries : Z)
        (w : world) (k : nat) (error : jsError) :
  Z.of_nat k < retries ->
  DownThen message k (inr error) w ->
  transient error = false ->
  (out (ServerJs.sendMessageWithRetry message retries w) = Thrown error /\
   attempts (events (ServerJs.sendMessageWithRetry message retries w)) = S k) /\
  (out (Part000.sendMessageWithRetry message retries w) = Thrown error /\
   attempts (events (Part000.sendMessageWithRetry message retries w)) = S k) /\
  (out (Part001.sendMessageWithRetry message retries w) = Thrown error /\
   attempts (events (Part001.sendMessageWithRetry message retries w)) = S k).
Proof.
  intros Hk H T. rewrite Part000_send_eq.
  unfold ServerJs.sendMessageWithRetry, Part001.sendMessageWithRetry.
  assert (Hn : (k < Z.to_nat retries)%nat) by lia.
  assert (Hf : forall e, @inr string jsError error = inr e ->
                         transient e = false) by (intros e [= <-]; exact T).
  pose proof (ServerJs_loop_then message retries k _ 0 w _ Hn H Hf) as A.
  pose proof (Part001_loop_then message retries k _ 0 w _ Hn H Hf) as B.
  cbv zeta in A, B. auto.
Qed.

Lemma relay_fatal_error_immediate_witness :
  out (Part001.sendMessageWithRetry "start" 3
         (flaky 0 (inr error400) (quietWorld ""))) = Thrown error400 /\
  attempts (events (Part001.sendMessageWithRetry "start" 3
                      (flaky 0 (inr error400) (quietWorld "")))) = 1%nat.
Proof.
  assert (H : Z.of_nat 0 < 3) by lia.
  apply (relay_fatal_error_immediate "start" 3
           (flaky 0 (inr error400) (quietWorld "")) 0 error400 H
           (DownThen_flaky _ _ _ _) eq_refl).
Defined.

(** X5. Whatever [sendMessageWithRetry] throws is not a transient error: the
    500s and 503s of the upstream service never reach the caller. *)
Theorem relay_never_throws_transient (message : string) (retries : Z)
        (w : world) (error : jsError) :
  (out (ServerJs.sendMessageWithRetry message retries w) = Thrown error ->
   transient error = false) /\
  (out (Part000.sendMessageWithRetry message retries w) = Thrown error ->
   transient error = false) /\
  (out (Part001.sendMessageWithRetry message retries w) = Thrown error ->
   transient error = false).
Proof.
  rewrite Part000_send_eq.
  unfold ServerJs.sendMessageWithRetry, Part001.sendMessageWithRetry.
  repeat split; intros H.
  - eapply ServerJs_loop_thrown; eassumption.
  - eapply ServerJs_loop_thrown; eassumption.
  - eapply Part001_loop_thrown; eassumption.
Qed.

Lemma relay_never_throws_transient_witness :
  out (ServerJs.sendMessageWithRetry "start" 3 (failing error503 (quietWorld "")))
    = Thrown ServerJs.unavailable /\
  transient ServerJs.unavailable = false.
Proof.
  split; [reflexivity|].
  apply (proj1 (relay_never_throws_transient "start" 3
                  (failing error503 (quietWorld "")) ServerJs.unavailable)).
  reflexivity.
Defined.

(** X6. The time a run sleeps.  With a bound of [retries] at least 1,
    [server.js] and the first SQLite variant sleep at most
    [2 ^ (retries - 1) - 1] seconds, and exactly that when every attempt
    fails with a transient error; the second SQLite variant, which also
    sleeps after the last failure, goes up to [2 ^ retries - 1] seconds:
    with the default bound, 4 seconds spent before giving up. *)
Theorem relay_total_sleep (message : string) (retries : Z) (w : world) :
  1 <= retries ->
  (0 <= totalSleep (events (ServerJs.sendMessageWithRetry message retries w))
     <= (2 ^ (retries - 1) - 1) * 1000) /\
  (0 <= totalSleep (events (Part000.sendMessageWithRetry message retries w))
     <= (2 ^ (retries - 1) - 1) * 1000) /\
  (0 <= totalSleep (events (Part001.sendMessageWithRetry message retries w))
     <= (2 ^ retries - 1) * 1000) /\
  (Down message (Z.to_nat retries) w ->
   totalSleep (events (ServerJs.sendMessageWithRetry message retries w))
     = (2 ^ (retries - 1) - 1) * 1000 /\
   totalSleep (events (Part000.sendMessageWithRetry message retries w))
     = (2 ^ (retries - 1) - 1) * 1000 /\
   totalSleep (events (Part001.sendMessageWithRetry message retries w))
     = (2 ^ retries - 1) * 1000).
Proof.
  intros Hr. rewrite Part000_send_eq.
  unfold ServerJs.sendMessageWithRetry, Part001.sendMessageWithRetry.
  destruct (Z.to_nat retries) as [|n] eqn:En; [lia|].
  assert (Hn : 0 + Z.of_nat (S n) = retries) by lia.
  pose proof (ServerJs_loop_sleep message retries (S n) 0 w Hn (Z.le_refl 0)) as A.
  pose proof (Part001_loop_sleep message retries (S n) 0 w (Z.le_refl 0)) as B.
  cbv beta iota zeta in A, B.
  assert (E1 : 0 + Z.of_nat n = retries - 1) by lia.
  change (2 ^ 0) with 1 in A, B.
  rewrite E1 in A. rewrite Hn in B.
  destruct A as [A A'], B as [B B'].
  split; [exact A|]. split; [exact A|]. split; [exact B|].
  intros D. split; [|split]; auto.
Qed.

Lemma relay_total_sleep_witness :
  totalSleep (events (ServerJs.sendMessageWithRetry "start" 3
                        (failing error503 (quietWorld "")))) = 3000 /\
  totalSleep (events (Part001.sendMessageWithRetry "start" 3
                        (failing error503 (quietWorld "")))) = 7000.
Proof.
  assert (H : 1 <= 3) by lia.
  destruct (relay_total_sleep "start" 3 (failing error503 (quietWorld "")) H)
    as (_ & _ & _ & E).
  destruct (E (Down_failing "start" _ _)) as (A & _ & B).
  split; assumption.
Defined.

(** ** The handlers, whatever the store and the upstream service do *)

Lemma ServerJs_save_shape :
  ServerJs.saveMessage = saveWith "Database connection not established." "insert".
Proof. reflexivity. Qed.

Lemma Part000_save_shape :
  Part000.saveMessage = saveWith "Database connection not established." "run".
Proof. reflexivity. Qed.

Lemma Part001_save_shape :
  Part001.saveMessage = saveWith "Database not initialized." "run".
Proof. reflexivity. Qed.

Lemma ServerJs_chat_shape :
  ServerJs.chat =
    chatWith ServerJs.saveMessage ServerJs.sendMessageWithRetry
      (fun _ => "User") "No message provided." "Server Error during Chat:"
      "System Error" (fun text => "Failed to get Gemini response for: " ++ text)
      "Internal server error. Please try again.".
Proof. reflexivity. Qed.

Lemma Part000_chat_shape :
  Part000.chat =
    chatWith Part000.saveMessage Part000.sendMessageWithRetry
      (fun _ => "User") "No message provided." "Gemini API Error:"
      "System Error" (fun text => "Failed to get Gemini response for: " ++ text)
      "Failed to communicate with the AI model. Try refreshing the page.".
Proof. reflexivity. Qed.

Lemma Part001_chat_shape :
  Part001.chat =
    chatWith Part001.saveMessage Part001.sendMessageWithRetry
      Part001.senderOrUser "Message is required." "Chat Error:"
      "System" (fun _ => "Gemini failure during reply.")
      "AI model failed. Try again.".
Proof. reflexivity. Qed.

Section SaveCases.

Variables (notReady method : string) (w : world) (from text : string).

Lemma saveWith_unset :
  db w = None ->
  saveWith notReady method from text w =
    {| out := Returned tt; final := w; events := [ConsoleError notReady] |}.
Proof.
  intros D. unfold saveWith, bind, getDb, emit. cbn [out final events].
  now rewrite D.
Qed.

Lemma saveWith_accepted (rows : list row) :
  db w = Some rows -> dbScript w (dbOps w) = None ->
  saveWith notReady method from text w =
    {| out := Returned tt;
       final := setDb (Some (rows ++ [Build_row (Z.of_nat (List.length rows) + 1)
                                        from text])%list) (tickDb w);
       events := [DbInsert from text] |}.
Proof.
  intros D A. unfold saveWith, bind, getDb, dbInsert, statement.
  cbn [out final events]. rewrite D. cbn. now rewrite D, A.
Qed.

Lemma saveWith_rejected (rows : list row) (error : jsError) :
  db w = Some rows -> dbScript w (dbOps w) = Some error ->
  saveWith notReady method from text w =
    {| out := Thrown error; final := tickDb w; events := [DbInsert from text] |}.
Proof.
  intros D A. unfold saveWith, bind, getDb, dbInsert, statement.
  cbn [out final events]. rewrite D. cbn. now rewrite D, A.
Qed.

End SaveCases.

Lemma ServerJs_send_frame (message : string) (retries : Z) (w : world) :
  RelayFrame message w (ServerJs.sendMessageWithRetry message retries w).
Proof.
  unfold ServerJs.sendMessageWithRetry.
  destruct (ServerJs_loop_run message retries (Z.to_nat retries) 0 w) as [_ [F E]].
  now apply relay_frame_of_run.
Qed.

Lemma Part000_send_frame (message : string) (retries : Z) (w : world) :
  RelayFrame message w (Part000.sendMessageWithRetry message retries w).
Proof. rewrite Part000_send_eq. apply ServerJs_send_frame. Qed.

Lemma Part001_send_frame (message : string) (retries : Z) (w : world) :
  RelayFrame message w (Part001.sendMessageWithRetry message retries w).
Proof.
  unfold Part001.sendMessageWithRetry.
  destruct (Part001_loop_run message retries (Z.to_nat retries) 0 w) as [_ [F E]].
  now apply relay_frame_of_run.
Qed.

(** The relay leaves the listing of the store as it is. *)
Lemma ServerJs_send_listing (message : string) (retries : Z) (w : world) :
  listing (final (ServerJs.sendMessageWithRetry message retries w)) = listing w.
Proof.
  unfold ServerJs.sendMessageWithRetry.
  destruct (ServerJs_loop_run message retries (Z.to_nat retries) 0 w) as [_ [F _]].
  rewrite F. apply iter_tickChat_listing.
Qed.

Lemma Part000_send_listing (message : string) (retries : Z) (w : world) :
  listing (final (Part000.sendMessageWithRetry message retries w)) = listing w.
Proof. rewrite Part000_send_eq. apply ServerJs_send_listing. Qed.

Lemma Part001_send_listing (message : string) (retries : Z) (w : world) :
  listing (final (Part001.sendMessageWithRetry message retries w)) = listing w.
Proof.
  unfold Part001.sendMessageWithRetry.
  destruct (Part001_loop_run message retries (Z.to_nat retries) 0 w) as [_ [F _]].
  rewrite F. apply iter_tickChat_listing.
Qed.

Lemma responses_app (evs evs' : list event) :
  responses (evs ++ evs') = (responses evs ++ responses evs')%list.
Proof. apply flat_map_app. Qed.

Lemma inserts_app (evs evs' : list event) :
  inserts (evs ++ evs') = (inserts evs ++ inserts evs')%list.
Proof. apply flat_map_app. Qed.

Lemma AnswersOnce_after (codes : list Z) (evs : list event) (r : result unit) :
  responses evs = [] -> AnswersOnce codes r -> AnswersOnce codes (after evs r).
Proof.
  intros Q (evs' & status & content & Ho & He & Hr & Hin).
  exists (evs ++ evs')%list, status, content. unfold after. cbn [out events].
  rewrite He, app_assoc, responses_app, Q, Hr. auto.
Qed.

Lemma EndsUnanswered_after (evs : list event) (r : result unit) :
  responses evs = [] -> EndsUnanswered r -> EndsUnanswered (after evs r).
Proof.
  intros Q (error & Ho & Hr). exists error. unfold after. cbn [out events].
  rewrite responses_app, Q, Hr. auto.
Qed.

Lemma AnswersOnce_respond (codes : list Z) (w : world) (status : Z)
      (content : body) :
  In status codes ->
  AnswersOnce codes
    {| out := Returned tt; final := w; events := [Respond status content] |}.
Proof. intros H. exists [], status, content. auto. Qed.

Lemma Extends_refl (senders : list string) (w w' : world) :
  db w' = db w -> Extends senders 0 w w'.
Proof.
  intros E. unfold Extends. destruct (db w) as [rows|]; [|auto].
  exists []. rewrite app_nil_r. auto.
Qed.

Lemma Extends_trans (senders : list string) (n m : nat) (w w' w'' : world) :
  Extends senders n w w' -> Extends senders m w' w'' ->
  Extends senders (n + m) w w''.
Proof.
  unfold Extends. destruct (db w) as [rows|].
  - intros (added & -> & <- & F) (added' & -> & <- & F').
    exists (added ++ added')%list. rewrite app_assoc, length_app.
    repeat split. now apply Forall_app.
  - intros [-> ->] [-> ->]. auto.
Qed.

Lemma Extends_more (senders senders' : list string) (n : nat) (w w' : world) :
  incl senders senders' -> Extends senders n w w' -> Extends senders' n w w'.
Proof.
  intros I. unfold Extends. destruct (db w); [|auto].
  intros (added & E & L & F). exists added. repeat split; trivial.
  eapply Forall_impl; [|exact F]. intros r. apply I.
Qed.

Lemma Extends_frame (senders : list string) (message : string) (w : world)
      (r : result string) :
  RelayFrame message w r -> Extends senders 0 w (final r).
Proof. intros (_ & D & _). now apply Extends_refl. Qed.

Lemma StoreCalm_frame (message : string) (w : world) (r : result string) :
  RelayFrame message w r -> StoreCalm w -> StoreCalm (final r).
Proof.
  intros (_ & D & _ & S & _) [C|C]; [left | right]; congruence.
Qed.

Section SaveFacts.

Variables (notReady method : string) (w : world) (from text : string).

Let r := saveWith notReady method from text w.

Lemma saveWith_cases :
  (db w = None /\
   r = {| out := Returned tt; final := w; events := [ConsoleError notReady] |}) \/
  (exists rows,
      db w = Some rows /\ dbScript w (dbOps w) = None /\
      r = {| out := Returned tt;
             final := setDb (Some (rows ++ [Build_row (Z.of_nat (List.length rows) + 1)
                                              from text])%list) (tickDb w);
             events := [DbInsert from text] |}) \/
  (exists rows error,
      db w = Some rows /\ dbScript w (dbOps w) = Some error /\
      r = {| out := Thrown error; final := tickDb w;
             events := [DbInsert from text] |}).
Proof.
  subst r. destruct (db w) as [rows|] eqn:D.
  - destruct (dbScript w (dbOps w)) as [error|] eqn:S.
    + right. right. exists rows, error. repeat split.
      now apply (saveWith_rejected notReady method w from text rows error).
    + right. left. exists rows. repeat split.
      now apply (saveWith_accepted notReady method w from text rows).
  - left. split; [reflexivity|]. now apply saveWith_unset.
Qed.

Lemma saveWith_quiet :
  responses (events r) = [] /\ attempts (events r) = O.
Proof.
  destruct saveWith_cases as [[_ ->] | [(rows & _ & _ & ->) | (rows & e & _ & _ & ->)]];
    split; reflexivity.
Qed.

Lemma saveWith_extends :
  exists n,
    Extends [from] n w (final r) /\ (n <= 1)%nat /\
    (forall error, out r = Thrown error -> n = O).
Proof.
  destruct saveWith_cases as [[D ->] | [(rows & D & _ & ->) | (rows & e & D & _ & ->)]].
  - exists O. split; [now apply Extends_refl|]. split; [lia | reflexivity].
  - exists 1%nat. split; [|split; [lia | discriminate]].
    unfold Extends. rewrite D. eexists. split; [reflexivity|].
    split; [reflexivity|]. repeat constructor.
  - exists O. split; [now apply Extends_refl|]. split; [lia | reflexivity].
Qed.

Lemma saveWith_calm :
  StoreCalm w -> out r = Returned tt /\ StoreCalm (final r).
Proof.
  intros C.
  destruct saveWith_cases as [[D ->] | [(rows & D & _ & ->) | (rows & e & D & S & ->)]].
  - now split.
  - split; [reflexivity|]. destruct C as [C|C]; [congruence|]. now right.
  - destruct C as [C|C]; congruence.
Qed.

End SaveFacts.

Section ChatRuns.

Variables (notReady method : string) (send : string -> Z -> M string).
Hypothesis send_frame :
  forall message w, RelayFrame message w (send message 3 w).
Hypothesis send_listing :
  forall message w, listing (final (send message 3 w)) = listing w.
Variables (user : option string -> string) (missing label system : string)
          (failure : string -> string) (generic : string).

Let save := saveWith notReady method.
Let chat := chatWith save send user missing label system failure generic.

(** The catch block. *)
Let rescue (text : string) : M unit :=
  emit (ConsoleError label) ;;
  save system (failure text) ;;
  respond 500 (ErrorBody generic).

Lemma rescue_answers (text : string) (w : world) :
  AnswersOnce [500] (rescue text w) \/ EndsUnanswered (rescue text w).
Proof.
  unfold rescue. rewrite bind_emit.
  destruct (saveWith_cases notReady method w system (failure text))
    as [[_ E] | [(rows & _ & _ & E) | (rows & e & _ & _ & E)]]; fold save in E.
  - left. rewrite (bind_ret_eq _ _ _ _ _ _ E).
    do 2 (apply AnswersOnce_after; [reflexivity|]).
    apply AnswersOnce_respond. simpl; auto.
  - left. rewrite (bind_ret_eq _ _ _ _ _ _ E).
    do 2 (apply AnswersOnce_after; [reflexivity|]).
    apply AnswersOnce_respond. simpl; auto.
  - right. rewrite (bind_thr_eq _ _ _ _ _ _ E).
    apply EndsUnanswered_after; [reflexivity|]. exists e. now split.
Qed.

Lemma rescue_calm (text : string) (w : world) :
  StoreCalm w -> AnswersOnce [500] (rescue text w).
Proof.
  intros C. destruct (rescue_answers text w) as [A|(error & Ho & _)]; [exact A|].
  exfalso. unfold rescue in Ho. rewrite bind_emit in Ho.
  destruct (saveWith_calm notReady method w system (failure text) C) as [Hs _].
  fold save in Hs.
  rewrite (bind_returned _ _ _ tt Hs) in Ho. discriminate.
Qed.

Lemma rescue_extends (text : string) (w : world) :
  exists n, Extends [system] n w (final (rescue text w)) /\ (n <= 1)%nat.
Proof.
  unfold rescue. rewrite bind_emit.
  destruct (saveWith_extends notReady method w system (failure text))
    as (n & E & L & _). fold save in E.
  exists n. split; [|exact L].
  destruct (out (save system (failure text) w)) as [[]|error] eqn:Ho.
  - rewrite (bind_returned _ _ _ tt Ho). exact E.
  - rewrite (bind_thrown _ _ _ error Ho). exact E.
Qed.

(** The four ways through the handler, for a message that is not empty. *)
Lemma chat_paths (text : string) (sender : option string) (w : world) :
  text <> "" ->
  let r1 := save (user sender) text w in
  let r2 := send text 3 (final r1) in
  (exists error, out r1 = Thrown error /\
     chat (Some text) sender w = after (events r1) (rescue text (final r1))) \/
  (exists error, out r1 = Returned tt /\ out r2 = Thrown error /\
     chat (Some text) sender w =
       after (events r1) (after (events r2) (rescue text (final r2)))) \/
  (exists reply error,
     out r1 = Returned tt /\ out r2 = Returned reply /\
     out (save "Bot" reply (final r2)) = Thrown error /\
     chat (Some text) sender w =
       after (events r1)
         (after (events r2)
            (after (events (save "Bot" reply (final r2)))
               (rescue text (final (save "Bot" reply (final r2))))))) \/
  (exists reply,
     out r1 = Returned tt /\ out r2 = Returned reply /\
     out (save "Bot" reply (final r2)) = Returned tt /\
     chat (Some text) sender w =
       after (events r1)
         (after (events r2)
            (after (events (save "Bot" reply (final r2)))
               {| out := Returned tt;
                  final := final (save "Bot" reply (final r2));
                  events := [Respond 200 (BotResponse reply)] |}))).
Proof.
  intros Hne r1 r2. unfold chat, chatWith. rewrite (falsy_text text Hne).
  destruct (out r1) as [[]|e1] eqn:H1.
  2:{ left. exists e1. split; [reflexivity|].
      subst r1. now rewrite (tryCatch_bind_thrown _ _ _ _ e1 H1). }
  right. subst r1. rewrite (tryCatch_bind_returned _ _ _ _ tt H1). cbv beta.
  destruct (out r2) as [reply|e2] eqn:H2.
  2:{ left. exists e2. repeat split.
      subst r2. now rewrite (tryCatch_bind_thrown _ _ _ _ e2 H2). }
  right. subst r2. rewrite (tryCatch_bind_returned _ _ _ _ reply H2). cbv beta.
  destruct (out (save "Bot" reply
                   (final (send text 3 (final (save (user sender) text w))))))
    as [[]|e3] eqn:H3.
  - right. exists reply. repeat split; [exact H3|].
    rewrite (tryCatch_bind_returned _ _ _ _ tt H3). reflexivity.
  - left. exists reply, e3. repeat split; [exact H3|].
    now rewrite (tryCatch_bind_thrown _ _ _ _ e3 H3).
Qed.

Lemma chat_missing (message sender : option string) (w : world) :
  falsy message = true ->
  chat message sender w =
    {| out := Returned tt; final := w;
       events := [Respond 400 (ErrorBody missing)] |}.
Proof.
  intros F. unfold chat, chatWith. destruct message; [rewrite F|]; reflexivity.
Qed.

Lemma send_quiet (message : string) (w : world) :
  responses (events (send message 3 w)) = [].
Proof.
  destruct (send_frame message w) as [He _].
  now apply (relay_events_quiet message).
Qed.

(** Every run of the handler ends with its single response, or with an
    exception and no response. *)
Lemma chat_answers (message sender : option string) (w : world) :
  AnswersOnce [200; 400; 500] (chat message sender w) \/
  EndsUnanswered (chat message sender w).
Proof.
  assert (Rescue : forall text w',
             AnswersOnce [200; 400; 500] (rescue text w') \/
             EndsUnanswered (rescue text w')).
  { intros text w'. destruct (rescue_answers text w') as [A|A]; [left|now right].
    destruct A as (evs & status & content & Ho & He & Hr & [<-|[]]).
    exists evs, 500, content. repeat split; trivial. simpl; auto. }
  assert (After : forall evs r,
             responses evs = [] ->
             AnswersOnce [200; 400; 500] r \/ EndsUnanswered r ->
             AnswersOnce [200; 400; 500] (after evs r) \/
             EndsUnanswered (after evs r)).
  { intros evs r Q [A|A];
      [left; now apply AnswersOnce_after | right; now apply EndsUnanswered_after]. }
  destruct (falsy message) eqn:F.
  { left. rewrite (chat_missing message sender w F).
    apply AnswersOnce_respond. simpl; auto. }
  destruct message as [text|]; [|discriminate].
  assert (Hne : text <> "") by (now apply String.eqb_neq).
  destruct (chat_paths text sender w Hne)
    as [(e & _ & ->) | [(e & _ & _ & ->) | [(reply & e & _ & _ & _ & ->)
                                           | (reply & _ & _ & _ & ->)]]].
  - apply After; [apply saveWith_quiet | apply Rescue].
  - apply After; [apply saveWith_quiet|].
    apply After; [apply send_quiet | apply Rescue].
  - apply After; [apply saveWith_quiet|].
    apply After; [apply send_quiet|].
    apply After; [apply saveWith_quiet | apply Rescue].
  - left. apply AnswersOnce_after; [apply saveWith_quiet|].
    apply AnswersOnce_after; [apply send_quiet|].
    apply AnswersOnce_after; [apply saveWith_quiet|].
    apply AnswersOnce_respond. simpl; auto.
Qed.

(** A message that is not empty is never answered with status 400. *)
Lemma chat_text_answers (text : string) (sender : option string) (w : world) :
  text <> "" ->
  AnswersOnce [200; 500] (chat (Some text) sender w) \/
  EndsUnanswered (chat (Some text) sender w).
Proof.
  intros Hne.
  assert (Rescue : forall w',
             AnswersOnce [200; 500] (rescue text w') \/
             EndsUnanswered (rescue text w')).
  { intros w'. destruct (rescue_answers text w') as [A|A]; [left|now right].
    destruct A as (evs & status & content & Ho & He & Hr & [<-|[]]).
    exists evs, 500, content. repeat split; trivial. simpl; auto. }
  assert (After : forall evs r,
             responses evs = [] ->
             AnswersOnce [200; 500] r \/ EndsUnanswered r ->
             AnswersOnce [200; 500] (after evs r) \/
             EndsUnanswered (after evs r)).
  { intros evs r Q [A|A];
      [left; now apply AnswersOnce_after | right; now apply EndsUnanswered_after]. }
  destruct (chat_paths text sender w Hne)
    as [(e & _ & ->) | [(e & _ & _ & ->) | [(reply & e & _ & _ & _ & ->)
                                           | (reply & _ & _ & _ & ->)]]].
  - apply After; [apply saveWith_quiet | apply Rescue].
  - apply After; [apply saveWith_quiet|].
    apply After; [apply send_quiet | apply Rescue].
  - apply After; [apply saveWith_quiet|].
    apply After; [apply send_quiet|].
    apply After; [apply saveWith_quiet | apply Rescue].
  - left. apply AnswersOnce_after; [apply saveWith_quiet|].
    apply AnswersOnce_after; [apply send_quiet|].
    apply AnswersOnce_after; [apply saveWith_quiet|].
    apply AnswersOnce_respond. simpl; auto.
Qed.

(** With a store that takes every statement, or none to talk to, the
    handler always answers. *)
Lemma chat_calm (message sender : option string) (w : world) :
  StoreCalm w -> AnswersOnce [200; 400; 500] (chat message sender w).
Proof.
  intros C.
  destruct (chat_answers message sender w) as [A|(error & Ho & _)]; [exact A|].
  exfalso.
  destruct (falsy message) eqn:F.
  { rewrite (chat_missing message sender w F) in Ho. discriminate. }
  destruct message as [text|]; [|discriminate].
  assert (Hne : text <> "") by (now apply String.eqb_neq).
  destruct (saveWith_calm notReady method w (user sender) text C) as [H1 C1].
  fold save in H1, C1.
  assert (C2 : StoreCalm (final (send text 3 (final (save (user sender) text w)))))
    by (eapply StoreCalm_frame; [apply send_frame | exact C1]).
  assert (NoRescue : forall w', StoreCalm w' ->
                                out (rescue text w') <> Thrown error).
  { intros w' C' H.
    destruct (rescue_calm text w' C') as (? & ? & ? & Ho' & _). congruence. }
  destruct (chat_paths text sender w Hne)
    as [(e & H1' & _) | [(e & _ & _ & E) | [(reply & e & _ & _ & H3 & _)
                                           | (reply & _ & _ & _ & E)]]].
  - congruence.
  - rewrite E in Ho. now apply NoRescue in Ho.
  - destruct (saveWith_calm notReady method _ "Bot" reply C2) as [H3' _].
    fold save in H3'. congruence.
  - rewrite E in Ho. discriminate.
Qed.

(** The transcript after a run: that before it, with at most two rows
    added. *)
Lemma chat_extends (message sender : option string) (w : world) :
  exists n,
    Extends [user sender; "Bot"; system] n w (final (chat message sender w)) /\
    (n <= 2)%nat.
Proof.
  assert (U : incl [user sender] [user sender; "Bot"; system])
    by (intros x [<-|[]]; simpl; auto).
  assert (B : incl ["Bot"] [user sender; "Bot"; system])
    by (intros x [<-|[]]; simpl; auto).
  assert (S : incl [system] [user sender; "Bot"; system])
    by (intros x [<-|[]]; simpl; auto).
  destruct (falsy message) eqn:F.
  { exists O. rewrite (chat_missing message sender w F).
    split; [now apply Extends_refl | lia]. }
  destruct message as [text|]; [|discriminate].
  assert (Hne : text <> "") by (now apply String.eqb_neq).
  destruct (saveWith_extends notReady method w (user sender) text)
    as (n1 & E1 & L1 & T1). fold save in E1, T1.
  apply (Extends_more _ _ _ _ _ U) in E1.
  pose proof (Extends_frame [user sender; "Bot"; system] text _ _
                (send_frame text (final (save (user sender) text w)))) as E2.
  destruct (chat_paths text sender w Hne)
    as [(e & H1 & ->) | [(e & _ & _ & ->) | [(reply & e & _ & _ & H3 & ->)
                                           | (reply & _ & _ & _ & ->)]]].
  - destruct (rescue_extends text (final (save (user sender) text w)))
      as (n & E & L).
    apply (Extends_more _ _ _ _ _ S) in E.
    exists (n1 + n)%nat. split; [eapply Extends_trans; eassumption|].
    rewrite (T1 e H1). lia.
  - destruct (rescue_extends text
                (final (send text 3 (final (save (user sender) text w)))))
      as (n & E & L).
    apply (Extends_more _ _ _ _ _ S) in E.
    exists (n1 + 0 + n)%nat.
    split; [eapply Extends_trans; [eapply Extends_trans|]; eassumption | lia].
  - destruct (saveWith_extends notReady method
                (final (send text 3 (final (save (user sender) text w))))
                "Bot" reply) as (n3 & E3 & L3 & T3). fold save in E3, T3.
    apply (Extends_more _ _ _ _ _ B) in E3.
    destruct (rescue_extends text
                (final (save "Bot" reply
                          (final (send text 3 (final (save (user sender) text w)))))))
      as (n & E & L).
    apply (Extends_more _ _ _ _ _ S) in E.
    exists (n1 + 0 + n3 + n)%nat.
    split; [repeat (eapply Extends_trans; [|eassumption]); eassumption|].
    rewrite (T3 e H3). lia.
  - destruct (saveWith_extends notReady method
                (final (send text 3 (final (save (user sender) text w))))
                "Bot" reply) as (n3 & E3 & L3 & T3). fold save in E3.
    apply (Extends_more _ _ _ _ _ B) in E3.
    exists (n1 + 0 + n3)%nat.
    split; [repeat (eapply Extends_trans; [|eassumption]); eassumption | lia].
Qed.


(** The turn in which nothing fails. *)
Lemma chat_recorded (text : string) (sender : option string) (w : world)
      (rows : list row) (reply : string) :
  text <> "" ->
  db w = Some rows ->
  dbScript w (dbOps w) = None ->
  dbScript w (S (dbOps w)) = None ->
  let u := Build_row (Z.of_nat (List.length rows) + 1) (user sender) text in
  let r2 := send text 3 (setDb (Some (rows ++ [u])%list) (tickDb w)) in
  out r2 = Returned reply ->
  out (chat (Some text) sender w) = Returned tt /\
  events (chat (Some text) sender w) =
    (DbInsert (user sender) text :: events r2
       ++ [DbInsert "Bot" reply; Respond 200 (BotResponse reply)])%list /\
  db (final (chat (Some text) sender w)) =
    Some (rows ++ [u; Build_row (Z.of_nat (List.length rows) + 2) "Bot" reply])%list /\
  dbScript (final (chat (Some text) sender w)) = dbScript w /\
  dbOps (final (chat (Some text) sender w)) = S (S (dbOps w)) /\
  listing (final (chat (Some text) sender w)) = listing w.
Proof.
  intros Hne D A1 A2 u r2 H2. unfold chat, chatWith. rewrite (falsy_text text Hne).
  rewrite (tryCatch_bind_ret_eq _ _ _ _ _ _ _
             (saveWith_accepted notReady method w (user sender) text rows D A1)).
  fold u. fold r2. rewrite (tryCatch_bind_returned _ _ _ _ reply H2). cbv beta.
  destruct (send_frame text (setDb (Some (rows ++ [u])%list) (tickDb w)))
    as (_ & D2 & _ & S2 & O2 & _). fold r2 in D2, S2, O2.
  assert (A2' : dbScript (final r2) (dbOps (final r2)) = None)
    by (rewrite S2, O2; exact A2).
  rewrite (tryCatch_bind_ret_eq _ _ _ _ _ _ _
             (saveWith_accepted notReady method (final r2) "Bot" reply _ D2 A2')).
  rewrite tryCatch_respond. unfold after.
  cbn [out final events db dbScript dbOps listing setDb tickDb].
  rewrite S2, O2. repeat split.
  2:{ fold r2. unfold r2. now rewrite send_listing. }
  rewrite <- app_assoc, length_app. cbn [app List.length].
  replace (Z.of_nat (List.length rows + 1) + 1)
    with (Z.of_nat (List.length rows) + 2) by lia.
  reflexivity.
Qed.

Lemma handler_events_cost (evs : list event) :
  Forall isHandlerEvent evs -> attempts evs = O /\ totalSleep evs = 0.
Proof.
  induction 1 as [|e evs He _ [IHa IHs]]; [split; reflexivity|].
  destruct e; try contradiction; split; trivial.
Qed.

Lemma save_handler_events (from text : string) (w : world) :
  Forall isHandlerEvent (events (save from text w)).
Proof.
  destruct (saveWith_cases notReady method w from text)
    as [[_ E] | [(rows & _ & _ & E) | (rows & e & _ & _ & E)]];
    fold save in E; rewrite E; repeat constructor.
Qed.

Lemma rescue_handler_events (text : string) (w : world) :
  Forall isHandlerEvent (events (rescue text w)).
Proof.
  unfold rescue. rewrite bind_emit.
  destruct (saveWith_cases notReady method w system (failure text))
    as [[_ E] | [(rows & _ & _ & E) | (rows & e & _ & _ & E)]]; fold save in E.
  - rewrite (bind_ret_eq _ _ _ _ _ _ E). repeat constructor.
  - rewrite (bind_ret_eq _ _ _ _ _ _ E). repeat constructor.
  - rewrite (bind_thr_eq _ _ _ _ _ _ E). repeat constructor.
Qed.

(** What a request costs: nothing, or what its one run of the relay
    costs. *)
Lemma chat_cost (message sender : option string) (w : world) :
  (attempts (events (chat message sender w)) = O /\
   totalSleep (events (chat message sender w)) = 0) \/
  (exists text w',
      attempts (events (chat message sender w)) = attempts (events (send text 3 w')) /\
      totalSleep (events (chat message sender w)) = totalSleep (events (send text 3 w'))).
Proof.
  destruct (falsy message) eqn:F.
  { left. rewrite (chat_missing message sender w F). split; reflexivity. }
  destruct message as [text|]; [|discriminate].
  assert (Hne : text <> "") by (now apply String.eqb_neq).
  destruct (handler_events_cost _ (save_handler_events (user sender) text w))
    as [A1 S1].
  assert (R : forall w', attempts (events (rescue text w')) = O /\
                         totalSleep (events (rescue text w')) = 0)
    by (intros w'; apply handler_events_cost, rescue_handler_events).
  assert (B : forall reply w', attempts (events (save "Bot" reply w')) = O /\
                               totalSleep (events (save "Bot" reply w')) = 0)
    by (intros reply w'; apply handler_events_cost, save_handler_events).
  destruct (chat_paths text sender w Hne)
    as [(e & _ & ->) | [(e & _ & _ & ->) | [(reply & e & _ & _ & _ & ->)
                                           | (reply & _ & _ & _ & ->)]]];
    unfold after; cbn [events].
  - left. rewrite attempts_app, totalSleep_app, A1, S1.
    destruct (R (final (save (user sender) text w))) as [-> ->]. now split.
  - right. exists text, (final (save (user sender) text w)).
    rewrite !attempts_app, !totalSleep_app, A1, S1.
    destruct (R (final (send text 3 (final (save (user sender) text w)))))
      as [-> ->].
    split; lia.
  - right. exists text, (final (save (user sender) text w)).
    rewrite !attempts_app, !totalSleep_app, A1, S1.
    destruct (B reply (final (send text 3 (final (save (user sender) text w)))))
      as [-> ->].
    destruct (R (final (save "Bot" reply
                          (final (send text 3 (final (save (user sender) text w)))))))
      as [-> ->].
    split; lia.
  - right. exists text, (final (save (user sender) text w)).
    rewrite !attempts_app, !totalSleep_app, A1, S1.
    destruct (B reply (final (send text 3 (final (save (user sender) text w)))))
      as [-> ->].
    cbn [attempts totalSleep filter isChatSend List.length]. split; lia.
Qed.

End ChatRuns.

(** X7. Whatever the store and the upstream service do, a run of the chat
    handler ends in one of two ways: with a single response, of status 200,
    400 or 500, sent as its last action, or with an exception and no
    response at all.  It never answers twice and does nothing after
    answering. *)
Theorem chat_answers_at_most_once (message sender : option string) (w : world) :
  (AnswersOnce [200; 400; 500] (ServerJs.chat message sender w) \/
   EndsUnanswered (ServerJs.chat message sender w)) /\
  (AnswersOnce [200; 400; 500] (Part000.chat message sender w) \/
   EndsUnanswered (Part000.chat message sender w)) /\
  (AnswersOnce [200; 400; 500] (Part001.chat message sender w) \/
   EndsUnanswered (Part001.chat message sender w)).
Proof.
  rewrite ServerJs_chat_shape, Part000_chat_shape, Part001_chat_shape.
  rewrite ServerJs_save_shape, Part000_save_shape, Part001_save_shape.
  split; [|split]; apply chat_answers; intros m w'.
  - apply ServerJs_send_frame.
  - apply Part000_send_frame.
  - apply Part001_send_frame.
Qed.

(** X8. When [db] is unset, or the store accepts every statement, the chat
    handler answers every request, whatever the upstream service does. *)
Theorem chat_answers_when_store_calm (message sender : option string)
        (w : world) :
  StoreCalm w ->
  AnswersOnce [200; 400; 500] (ServerJs.chat message sender w) /\
  AnswersOnce [200; 400; 500] (Part000.chat message sender w) /\
  AnswersOnce [200; 400; 500] (Part001.chat message sender w).
Proof.
  intros C.
  rewrite ServerJs_chat_shape, Part000_chat_shape, Part001_chat_shape.
  rewrite ServerJs_save_shape, Part000_save_shape, Part001_save_shape.
  split; [|split]; apply chat_calm; trivial; intros m w'.
  - apply ServerJs_send_frame.
  - apply Part000_send_frame.
  - apply Part001_send_frame.
Qed.

Lemma chat_answers_when_store_calm_witness :
  StoreCalm (failing error503 (connected (quietWorld ""))) /\
  AnswersOnce [200; 400; 500]
    (ServerJs.chat (Some "start") (Some "user")
       (failing error503 (connected (quietWorld "")))).
Proof.
  assert (C : StoreCalm (failing error503 (connected (quietWorld ""))))
    by (right; reflexivity).
  split; [exact C|].
  exact (proj1 (chat_answers_when_store_calm (Some "start") (Some "user") _ C)).
Defined.

(** X9. A chat turn never removes or rewrites a row of the transcript: the
    table after the turn is the table before it followed by at most two
    new rows, whose senders are the user's label, 'Bot' and the label of
    failures; and an unset [db] stays unset. *)
Theorem chat_only_appends (message sender : option string) (w : world) :
  (exists n,
      Extends ["User"; "Bot"; "System Error"] n w
              (final (ServerJs.chat message sender w)) /\ (n <= 2)%nat) /\
  (exists n,
      Extends ["User"; "Bot"; "System Error"] n w
              (final (Part000.chat message sender w)) /\ (n <= 2)%nat) /\
  (exists n,
      Extends [Part001.senderOrUser sender; "Bot"; "System"] n w
              (final (Part001.chat message sender w)) /\ (n <= 2)%nat).
Proof.
  rewrite ServerJs_chat_shape, Part000_chat_shape, Part001_chat_shape.
  rewrite ServerJs_save_shape, Part000_save_shape, Part001_save_shape.
  split; [|split].
  - apply (chat_extends _ _ _ (fun m w' => ServerJs_send_frame m 3 w')
             (fun _ => "User")).
  - apply (chat_extends _ _ _ (fun m w' => Part000_send_frame m 3 w')
             (fun _ => "User")).
  - apply (chat_extends _ _ _ (fun m w' => Part001_send_frame m 3 w')).
Qed.



(** ** The admin endpoint and the start of the server *)

Ltac run_admin :=
  unfold ServerJs.adminConversations, Part000.adminConversations,
    Part001.adminConversations, bind, tryCatch, getDb, dbSelectAll, statement,
    respond, emit, throw;
  cbn [out final events].

Section Admin.

Variables (w : world) (rows : list row).
Hypothesis D : db w = Some rows.

Lemma ServerJs_admin_lists :
  dbScript w (dbOps w) = None ->
  ServerJs.adminConversations w =
    {| out := Returned tt; final := setDb (Some rows) (tickDb w);
       events := [DbSelectAll; Respond 200 (Rows (listing w rows))] |}.
Proof.
  intros A. run_admin. cbn.
  repeat (first [rewrite D | rewrite A]; cbn). reflexivity.
Qed.

Lemma Part000_admin_lists :
  dbScript w (dbOps w) = None ->
  Part000.adminConversations w =
    {| out := Returned tt; final := setDb (Some rows) (tickDb w);
       events := [DbSelectAll; Respond 200 (Rows (listing w rows))] |}.
Proof.
  intros A. run_admin. cbn.
  repeat (first [rewrite D | rewrite A]; cbn). reflexivity.
Qed.

Lemma Part001_admin_lists :
  dbScript w (dbOps w) = None ->
  Part001.adminConversations w =
    {| out := Returned tt; final := setDb (Some rows) (tickDb w);
       events := [DbSelectAll; Respond 200 (Rows (listing w rows))] |}.
Proof.
  intros A. run_admin. cbn.
  repeat (first [rewrite D | rewrite A]; cbn). reflexivity.
Qed.

Lemma ServerJs_admin_rejected (error : jsError) :
  dbScript w (dbOps w) = Some error ->
  ServerJs.adminConversations w =
    {| out := Returned tt; final := tickDb w;
       events := [ DbSelectAll; ConsoleError "Admin Endpoint Error:";
                   Respond 500 (ErrorBody "Could not retrieve conversations.") ] |}.
Proof.
  intros A. run_admin. cbn.
  repeat (first [rewrite D | rewrite A]; cbn). reflexivity.
Qed.

Lemma Part000_admin_rejected (error : jsError) :
  dbScript w (dbOps w) = Some error ->
  Part000.adminConversations w =
    {| out := Returned tt; final := tickDb w;
       events := [ DbSelectAll; ConsoleError "Admin Endpoint Error:";
                   Respond 500 (ErrorBody "Could not retrieve conversations.") ] |}.
Proof.
  intros A. run_admin. cbn.
  repeat (first [rewrite D | rewrite A]; cbn). reflexivity.
Qed.

Lemma Part001_admin_rejected (error : jsError) :
  dbScript w (dbOps w) = Some error ->
  Part001.adminConversations w =
    {| out := Returned tt; final := tickDb w;
       events := [ DbSelectAll; ConsoleError "Admin Fetch Error:";
                   Respond 500 (ErrorBody "Could not fetch conversations.") ] |}.
Proof.
  intros A. run_admin. cbn.
  repeat (first [rewrite D | rewrite A]; cbn). reflexivity.
Qed.

End Admin.

Lemma admin_unset (w : world) :
  db w = None ->
  ServerJs.adminConversations w =
    {| out := Returned tt; final := w;
       events := [Respond 503 (ErrorBody "Database not ready.")] |} /\
  Part000.adminConversations w =
    {| out := Returned tt; final := w;
       events := [Respond 503 (ErrorBody "Database not ready.")] |} /\
  Part001.adminConversations w =
    {| out := Returned tt; final := w;
       events := [ ConsoleError "Admin Fetch Error:";
                   Respond 500 (ErrorBody "Could not fetch conversations.") ] |}.
Proof.
  intros D. run_admin. rewrite D. cbn. repeat split.
Qed.

(** X12. The admin handler always answers, exactly once, and never changes the
    transcript: with the connection established it sends the query to the
    store and answers with status 200 and the rows as the store has listed
    them, or with status 500 and a fixed text when the store rejects the
    query; it never throws and inserts nothing. *)
Theorem admin_always_answers (w : world) :
  (AnswersOnce [200; 500; 503] (ServerJs.adminConversations w) /\
   db (final (ServerJs.adminConversations w)) = db w /\
   inserts (events (ServerJs.adminConversations w)) = []) /\
  (AnswersOnce [200; 500; 503] (Part000.adminConversations w) /\
   db (final (Part000.adminConversations w)) = db w /\
   inserts (events (Part000.adminConversations w)) = []) /\
  (AnswersOnce [200; 500] (Part001.adminConversations w) /\
   db (final (Part001.adminConversations w)) = db w /\
   inserts (events (Part001.adminConversations w)) = []) /\
  (forall rows,
      db w = Some rows -> dbScript w (dbOps w) = None ->
      events (ServerJs.adminConversations w)
        = [DbSelectAll; Respond 200 (Rows (listing w rows))] /\
      events (Part000.adminConversations w)
        = [DbSelectAll; Respond 200 (Rows (listing w rows))] /\
      events (Part001.adminConversations w)
        = [DbSelectAll; Respond 200 (Rows (listing w rows))]) /\
  (forall rows error,
      db w = Some rows -> dbScript w (dbOps w) = Some error ->
      responses (events (ServerJs.adminConversations w))
        = [(500, ErrorBody "Could not retrieve conversations.")] /\
      responses (events (Part000.adminConversations w))
        = [(500, ErrorBody "Could not retrieve conversations.")] /\
      responses (events (Part001.adminConversations w))
        = [(500, ErrorBody "Could not fetch conversations.")]).
Proof.
  assert (Ans : forall codes w' evs status content,
             responses evs = [] -> In status codes ->
             AnswersOnce codes
               {| out := Returned tt; final := w';
                  events := (evs ++ [Respond status content])%list |}).
  { intros codes w' evs status content Q H. exists evs, status, content.
    repeat split; trivial. }
  split; [|split; [|split; [|split]]].
  4:{ intros rows D A.
      rewrite (ServerJs_admin_lists w rows D A), (Part000_admin_lists w rows D A),
        (Part001_admin_lists w rows D A).
      repeat split. }
  4:{ intros rows error D A.
      rewrite (ServerJs_admin_rejected w rows D error A),
        (Part000_admin_rejected w rows D error A),
        (Part001_admin_rejected w rows D error A).
      repeat split. }
  all: destruct (db w) as [rows|] eqn:D;
    [ destruct (dbScript w (dbOps w)) as [error|] eqn:A | ].
  - rewrite (ServerJs_admin_rejected w rows D error A).
    split; [|split; [exact D | reflexivity]].
    apply (Ans _ _ [DbSelectAll; ConsoleError "Admin Endpoint Error:"]);
      [reflexivity | simpl; auto].
  - rewrite (ServerJs_admin_lists w rows D A).
    split; [|split; reflexivity].
    apply (Ans _ _ [DbSelectAll]); [reflexivity | simpl; auto].
  - rewrite (proj1 (admin_unset w D)).
    split; [|split; [exact D | reflexivity]].
    apply (Ans _ _ []); [reflexivity | simpl; auto].
  - rewrite (Part000_admin_rejected w rows D error A).
    split; [|split; [exact D | reflexivity]].
    apply (Ans _ _ [DbSelectAll; ConsoleError "Admin Endpoint Error:"]);
      [reflexivity | simpl; auto].
  - rewrite (Part000_admin_lists w rows D A).
    split; [|split; reflexivity].
    apply (Ans _ _ [DbSelectAll]); [reflexivity | simpl; auto].
  - rewrite (proj1 (proj2 (admin_unset w D))).
    split; [|split; [exact D | reflexivity]].
    apply (Ans _ _ []); [reflexivity | simpl; auto].
  - rewrite (Part001_admin_rejected w rows D error A).
    split; [|split; [exact D | reflexivity]].
    apply (Ans _ _ [DbSelectAll; ConsoleError "Admin Fetch Error:"]);
      [reflexivity | simpl; auto].
  - rewrite (Part001_admin_lists w rows D A).
    split; [|split; reflexivity].
    apply (Ans _ _ [DbSelectAll]); [reflexivity | simpl; auto].
  - rewrite (proj2 (proj2 (admin_unset w D))).
    split; [|split; [exact D | reflexivity]].
    apply (Ans _ _ [ConsoleError "Admin Fetch Error:"]);
      [reflexivity | simpl; auto].
Qed.

Lemma admin_always_answers_witness :
  events (ServerJs.adminConversations
            (setDb (Some [Build_row 1 "User" "start"]) (quietWorld ""))) =
    [DbSelectAll; Respond 200 (Rows [Build_row 1 "User" "start"])].
Proof.
  destruct (admin_always_answers
              (setDb (Some [Build_row 1 "User" "start"]) (quietWorld "")))
    as (_ & _ & _ & H & _).
  exact (proj1 (H [Build_row 1 "User" "start"] eq_refl eq_refl)).
Defined.

(** X13. A turn in which the store accepts its statements and the upstream
    service answers within the bound, possibly after transient failures,
    can be read back through the admin endpoint: the table the store is
    then asked to list holds the transcript before the turn, the user's
    message and the reply, and the handler answers with the store's
    listing of that table, unchanged.  The order of the listing is the
    store's, by the time stamps it has assigned: the code does not fix
    it.  When the store lists every row of its table, the answer
    contains the user's message and the reply. *)
Theorem chat_then_admin_lists_the_turn (text : string) (sender : option string)
        (w : world) (rows : list row) (k : nat) (reply : string) :
  text <> "" ->
  db w = Some rows ->
  (forall j, (j < 3)%nat -> dbScript w (dbOps w + j) = None) ->
  (k < 3)%nat ->
  DownThen text k (inl reply) w ->
  let turn (user : string) :=
    [ Build_row (Z.of_nat (List.length rows) + 1) user text;
      Build_row (Z.of_nat (List.length rows) + 2) "Bot" reply ] in
  (responses (events (ServerJs.adminConversations
                        (final (ServerJs.chat (Some text) sender w)))) =
     [(200, Rows (listing w (rows ++ turn "User")))] /\
   responses (events (Part000.adminConversations
                        (final (Part000.chat (Some text) sender w)))) =
     [(200, Rows (listing w (rows ++ turn "User")))] /\
   responses (events (Part001.adminConversations
                        (final (Part001.chat (Some text) sender w)))) =
     [(200, Rows (listing w (rows ++ turn (Part001.senderOrUser sender))))]) /\
  ((forall table r, In r table -> In r (listing w table)) ->
   forall user r, In r (turn user) -> In r (listing w (rows ++ turn user))).
Proof.
  intros Hne D A Hk H turn.
  assert (A0 : dbScript w (dbOps w) = None)
    by (rewrite <- (Nat.add_0_r (dbOps w)); apply A; lia).
  assert (A1 : dbScript w (S (dbOps w)) = None)
    by (rewrite <- Nat.add_1_r; apply A; lia).
  assert (A2 : dbScript w (S (S (dbOps w))) = None)
    by (replace (S (S (dbOps w))) with (dbOps w + 2)%nat by lia; apply A; lia).
  assert (Hf : forall error, @inl string jsError reply = inr error ->
                             transient error = false) by discriminate.
  assert (Hn : (k < Z.to_nat 3)%nat) by lia.
  assert (Read : forall (admin : M unit) w' all,
             (forall w'', db w'' = Some all -> dbScript w'' (dbOps w'') = None ->
                          admin w'' = {| out := Returned tt;
                                         final := setDb (Some all) (tickDb w'');
                                         events := [DbSelectAll;
                                                    Respond 200 (Rows (listing w'' all))] |}) ->
             db w' = Some all /\ dbScript w' = dbScript w /\
             dbOps w' = S (S (dbOps w)) /\ listing w' = listing w ->
             responses (events (admin w')) = [(200, Rows (listing w all))]).
  { intros admin w' all Hadmin (Hd & Hs & Ho & Hl).
    rewrite (Hadmin w' Hd); [now rewrite Hl|]. now rewrite Hs, Ho. }
  split; [split; [|split]|].
  - apply Read; [intros; now apply ServerJs_admin_lists|].
    rewrite ServerJs_chat_shape, ServerJs_save_shape.
    refine (proj2 (proj2 (chat_recorded _ _ _
                            (fun m w' => ServerJs_send_frame m 3 w')
                            (fun m w' => ServerJs_send_listing m 3 w')
                            (fun _ => "User") _ _ _ _ _ text sender w rows reply
                            Hne D A0 A1 _))).
    refine (proj1 (ServerJs_loop_then text 3 k _ 0 _ _ Hn _ Hf)). exact H.
  - apply Read; [intros; now apply Part000_admin_lists|].
    rewrite Part000_chat_shape, Part000_save_shape.
    refine (proj2 (proj2 (chat_recorded _ _ _
                            (fun m w' => Part000_send_frame m 3 w')
                            (fun m w' => Part000_send_listing m 3 w')
                            (fun _ => "User") _ _ _ _ _ text sender w rows reply
                            Hne D A0 A1 _))).
    rewrite Part000_send_eq.
    refine (proj1 (ServerJs_loop_then text 3 k _ 0 _ _ Hn _ Hf)). exact H.
  - apply Read; [intros; now apply Part001_admin_lists|].
    rewrite Part001_chat_shape, Part001_save_shape.
    refine (proj2 (proj2 (chat_recorded _ _ _
                            (fun m w' => Part001_send_frame m 3 w')
                            (fun m w' => Part001_send_listing m 3 w')
                            Part001.senderOrUser _ _ _ _ _ text sender w rows reply
                            Hne D A0 A1 _))).
    refine (proj1 (Part001_loop_then text 3 k _ 0 _ _ Hn _ Hf)). exact H.
  - intros Hall user r Hr. apply Hall, in_or_app. now right.
Qed.

Lemma chat_then_admin_lists_the_turn_witness :
  responses (events (ServerJs.adminConversations
                       (final (ServerJs.chat (Some "start") (Some "user")
                                 (connected (flaky 2 (inl "Welcome") (quietWorld ""))))))) =
    [(200, Rows [ Build_row 1 "User" "start"; Build_row 2 "Bot" "Welcome" ])].
Proof.
  assert (Hne : "start" <> "") by discriminate.
  assert (Hk : (2 < 3)%nat) by lia.
  exact (proj1 (proj1 (chat_then_admin_lists_the_turn "start" (Some "user")
                  (connected (flaky 2 (inl "Welcome") (quietWorld "")))
                  [] 2 "Welcome" Hne eq_refl (fun _ _ => eq_refl) Hk
                  (DownThen_flaky "start" 2 (inl "Welcome") (quietWorld ""))))).
Defined.

Section Statements.

Context {A : Type}.
Variables (method : string) (e : event) (effect : list row -> list row)
          (answer : list row -> A) (w : world) (rows : list row).
Hypothesis D : db w = Some rows.

Lemma statement_accepted :
  dbScript w (dbOps w) = None ->
  statement method e effect answer w =
    {| out := Returned (answer (effect rows));
       final := setDb (Some (effect rows)) (tickDb w);
       events := [e] |}.
Proof. intros S. unfold statement. now rewrite D, S. Qed.

Lemma statement_rejected (error : jsError) :
  dbScript w (dbOps w) = Some error ->
  statement method e effect answer w =
    {| out := Thrown error; final := tickDb w; events := [e] |}.
Proof. intros S. unfold statement. now rewrite D, S. Qed.

End Statements.

Lemma tryCatch_ret {A} (a : A) (handler : jsError -> M A) (w : world) :
  tryCatch (ret a) handler w = {| out := Returned a; final := w; events := [] |}.
Proof. reflexivity. Qed.

(** The five ways through the initialization of [server.js]. *)
Lemma ServerJs_init_cases (tableExists : bool) (w : world) :
  let r := ServerJs.initializeDatabase tableExists w in
  let failed := Thrown (newError "Failed to connect to PostgreSQL database. Check DATABASE_URL.") in
  ~ In Listen (events r) /\
  match dbScript w (dbOps w) with
  | Some _ => out r = failed
  | None =>
      match dbScript w (S (dbOps w)) with
      | Some _ => out r = failed
      | None =>
          if tableExists
          then out r = Returned tt /\ db (final r) = Some (stored w)
          else
            match dbScript w (S (S (dbOps w))) with
            | Some _ => out r = failed
            | None => out r = Returned tt /\ db (final r) = Some (stored w)
            end
      end
  end.
Proof.
  cbv zeta. unfold ServerJs.initializeDatabase.
  rewrite (bind_ret_eq ServerJs.knex _ w (setDb (Some (stored w)) w) [] tt eq_refl).
  set (w0 := setDb (Some (stored w)) w).
  assert (D0 : db w0 = Some (stored w)) by reflexivity.
  unfold dbExec.
  destruct (dbScript w (dbOps w)) as [e0|] eqn:E0.
  { erewrite tryCatch_bind_thr_eq
      by (apply (statement_rejected _ _ _ _ w0 _ D0 e0); exact E0).
    split; [simpl; intuition discriminate | reflexivity]. }
  erewrite tryCatch_bind_ret_eq
    by (apply (statement_accepted _ _ _ _ w0 _ D0); exact E0).
  set (w1 := setDb (Some (stored w)) (tickDb w0)).
  assert (D1 : db w1 = Some (stored w)) by reflexivity.
  erewrite tryCatch_bind_ret_eq by reflexivity.
  destruct (dbScript w (S (dbOps w))) as [e1|] eqn:E1.
  { erewrite tryCatch_bind_thr_eq
      by (apply (statement_rejected _ _ _ _ w1 _ D1 e1); exact E1).
    split; [simpl; intuition discriminate | reflexivity]. }
  erewrite tryCatch_bind_ret_eq
    by (apply (statement_accepted _ _ _ _ w1 _ D1); exact E1).
  set (w2 := setDb (Some (stored w)) (tickDb w1)).
  assert (D2 : db w2 = Some (stored w)) by reflexivity.
  destruct tableExists; cbn [negb].
  { rewrite tryCatch_ret.
    split; [simpl; intuition discriminate | split; reflexivity]. }
  destruct (dbScript w (S (S (dbOps w)))) as [e2|] eqn:E2.
  { erewrite tryCatch_bind_thr_eq
      by (apply (statement_rejected _ _ _ _ w2 _ D2 e2); exact E2).
    split; [simpl; intuition discriminate | reflexivity]. }
  erewrite tryCatch_bind_ret_eq
    by (apply (statement_accepted _ _ _ _ w2 _ D2); exact E2).
  split; [simpl; intuition discriminate | split; reflexivity].
Qed.

Lemma start_listens {A} (init : M A) (w : world) :
  let r := (init ;; emit Listen) w in
  (forall a, out (init w) = Returned a ->
             out r = Returned tt /\ final r = final (init w) /\
             events r = (events (init w) ++ [Listen])%list) /\
  (forall error, out (init w) = Thrown error ->
                 out r = Thrown error /\ events r = events (init w)).
Proof.
  cbv zeta. split.
  - intros a H. rewrite (bind_returned _ _ _ a H). repeat split.
  - intros error H. rewrite (bind_thrown _ _ _ error H). repeat split.
Qed.

(** X14. [server.js] listens exactly when the statements of its initialization
    are all accepted: the connection test, the [hasTable] query and, when
    the table is missing, its creation.  It then serves with [db] set.
    When one of them is rejected the start ends with the fixed error of
    line 51, whatever the store's error was, and the server never
    listens. *)
Theorem serverjs_listens_only_when_ready (tableExists : bool) (w : world) :
  let r := ServerJs.start tableExists w in
  let ready :=
    dbScript w (dbOps w) = None /\
    dbScript w (S (dbOps w)) = None /\
    (tableExists = false -> dbScript w (S (S (dbOps w))) = None) in
  (In Listen (events r) <-> ready) /\
  (In Listen (events r) ->
   out r = Returned tt /\ db (final r) = Some (stored w)) /\
  (~ In Listen (events r) ->
   out r = Thrown (newError "Failed to connect to PostgreSQL database. Check DATABASE_URL.")).
Proof.
  cbv zeta. unfold ServerJs.start.
  destruct (start_listens (ServerJs.initializeDatabase tableExists) w) as [Ok Ko].
  cbv zeta in Ok, Ko.
  destruct (ServerJs_init_cases tableExists w) as [NoListen Cases].
  cbv zeta in NoListen, Cases.
  assert (Fail : out (ServerJs.initializeDatabase tableExists w) =
                 Thrown (newError "Failed to connect to PostgreSQL database. Check DATABASE_URL.") ->
                 ~ In Listen
                     (events ((ServerJs.initializeDatabase tableExists ;; emit Listen) w)) /\
                 out ((ServerJs.initializeDatabase tableExists ;; emit Listen) w) =
                   Thrown (newError "Failed to connect to PostgreSQL database. Check DATABASE_URL.")).
  { intros H. destruct (Ko _ H) as [Ho He]. rewrite He. now split. }
  assert (Done : out (ServerJs.initializeDatabase tableExists w) = Returned tt /\
                 db (final (ServerJs.initializeDatabase tableExists w)) =
                   Some (stored w) ->
                 In Listen
                    (events ((ServerJs.initializeDatabase tableExists ;; emit Listen) w)) /\
                 out ((ServerJs.initializeDatabase tableExists ;; emit Listen) w) =
                   Returned tt /\
                 db (final ((ServerJs.initializeDatabase tableExists ;; emit Listen) w)) =
                   Some (stored w)).
  { intros [H Hd]. destruct (Ok _ H) as (Ho & Hf & He). rewrite He, Hf.
    split; [apply in_or_app; right; now left | now split]. }
  destruct (dbScript w (dbOps w)) as [e0|].
  { destruct (Fail Cases) as [N T].
    repeat split; try tauto; try (intros [? _]; discriminate). }
  destruct (dbScript w (S (dbOps w))) as [e1|].
  { destruct (Fail Cases) as [N T].
    repeat split; try tauto; try (intros (_ & ? & _); discriminate). }
  destruct tableExists.
  { destruct (Done Cases) as (L & O & Db).
    repeat split; try tauto; try discriminate. }
  destruct (dbScript w (S (S (dbOps w)))) as [e2|].
  { destruct (Fail Cases) as [N T].
    repeat split; try tauto.
    intros (_ & _ & I). specialize (I eq_refl). discriminate. }
  destruct (Done Cases) as (L & O & Db).
  repeat split; try tauto.
Qed.

Lemma serverjs_listens_only_when_ready_witness :
  In Listen (events (ServerJs.start false (quietWorld ""))) /\
  db (final (ServerJs.start false (quietWorld ""))) = Some [] /\
  out (ServerJs.start false (rejecting 0 errorBusy (quietWorld ""))) =
    Thrown (newError "Failed to connect to PostgreSQL database. Check DATABASE_URL.").
Proof.
  pose proof (serverjs_listens_only_when_ready false (quietWorld "")) as H.
  pose proof (serverjs_listens_only_when_ready false
                (rejecting 0 errorBusy (quietWorld ""))) as H'.
  cbv zeta in H, H'.
  destruct H as (R & L & _). destruct H' as (R' & _ & N).
  assert (Ready : In Listen (events (ServerJs.start false (quietWorld ""))))
    by (apply (proj2 R); repeat split).
  split; [exact Ready|]. split; [exact (proj2 (L Ready))|].
  apply N. intros I. apply (proj1 R') in I. destruct I as [I _]. discriminate.
Defined.

Lemma sqlite_init_cases (w : world) :
  Part000.initializeDatabase = Part001.initializeDatabase /\
  exists u evs,
    out (Part001.initializeDatabase w) = Returned u /\
    events (Part001.initializeDatabase w) = evs /\
    db (final (Part001.initializeDatabase w)) =
      match openScript w with
      | None => Some (stored w)
      | Some _ => db w
      end.
Proof.
  split; [reflexivity|].
  unfold Part001.initializeDatabase.
  destruct (openScript w) as [e|] eqn:O.
  { assert (E : dbOpen w = {| out := Thrown e; final := w; events := [] |})
      by (unfold dbOpen; now rewrite O).
    rewrite (tryCatch_bind_thr_eq _ _ _ _ _ _ _ E).
    exists tt. eexists. repeat split. }
  assert (E : dbOpen w = {| out := Returned tt; final := setDb (Some (stored w)) w;
                            events := [] |})
    by (unfold dbOpen; now rewrite O).
  rewrite (tryCatch_bind_ret_eq _ _ _ _ _ _ _ E).
  set (w0 := setDb (Some (stored w)) w).
  assert (D0 : db w0 = Some (stored w)) by reflexivity.
  unfold dbExec.
  destruct (dbScript w (dbOps w)) as [e0|] eqn:E0.
  - erewrite tryCatch_bind_thr_eq
      by (apply (statement_rejected _ _ _ _ w0 _ D0 e0); exact E0).
    exists tt. eexists. repeat split.
  - erewrite tryCatch_bind_ret_eq
      by (apply (statement_accepted _ _ _ _ w0 _ D0); exact E0).
    exists tt. eexists. repeat split.
Qed.

(** X15. The SQLite variants listen whatever happens at their
    initialization, which never throws: when the data base file cannot be
    opened they serve with [db] unset; when it opens they serve with [db]
    set, even if the creation of the table was rejected. *)
Theorem sqlite_start_always_listens (w : world) :
  (out (Part000.start w) = Returned tt /\
   (exists evs, events (Part000.start w) = (evs ++ [Listen])%list) /\
   db (final (Part000.start w)) =
     match openScript w with
     | None => Some (stored w)
     | Some _ => db w
     end) /\
  (out (Part001.start w) = Returned tt /\
   (exists evs, events (Part001.start w) = (evs ++ [Listen])%list) /\
   db (final (Part001.start w)) =
     match openScript w with
     | None => Some (stored w)
     | Some _ => db w
     end).
Proof.
  destruct (sqlite_init_cases w) as [E (u & evs & Ho & He & Hd)].
  unfold Part000.start, Part001.start. rewrite E.
  destruct (start_listens Part001.initializeDatabase w) as [Ok _].
  cbv zeta in Ok. destruct (Ok u Ho) as (Ho' & Hf & He').
  rewrite Hf, He'. split; (split; [exact Ho' | split; [now eexists | exact Hd]]).
Qed.

(** ** More on the client *)

Lemma string_app_assoc (a b c : string) : (a ++ b) ++ c = a ++ (b ++ c).
Proof.
  induction a as [|x a IH]; simpl; [reflexivity | now rewrite IH].
Qed.

Lemma Substring_refl (s : string) : Substring s s.
Proof.
  exists "", "". simpl. induction s as [|c s IH]; simpl; [reflexivity|].
  now rewrite <- IH.
Qed.

Lemma Substring_trans (a b c : string) :
  Substring a b -> Substring b c -> Substring a c.
Proof.
  intros (p & q & ->) (p' & q' & ->).
  exists (p' ++ p), (q ++ q'). now rewrite !string_app_assoc.
Qed.

Lemma Substring_empty (s : string) : Substring "" s.
Proof. exists "", s. reflexivity. Qed.

Section Client.

Import Script.

Variable trim : string -> string.
Variable toLowerCase : string -> string.
Variable prompts : list string.
Variable answers : list (list string).
Variable server : string -> fetchResult.

Lemma allFetches_app (l l' : list action) :
  allFetches (l ++ l') = (allFetches l ++ allFetches l')%list.
Proof. apply flat_map_app. Qed.

Lemma sendToGemini_shape (geminiInput : string) :
  exists middle,
    sendToGemini server geminiInput =
      (Fetch BACKEND_URL geminiInput "user" :: middle
         ++ [SetControlsDisabled false])%list /\
    allFetches middle = [] /\
    existsb showsImage middle = false /\
    existsb enables middle = false /\
    exists text, In (AddMessage text "bot") middle.
Proof.
  unfold sendToGemini.
  destruct (server geminiInput) as [[botResponse|]|].
  - destruct (botResponse =? "")%string; eexists;
      (split; [reflexivity|]); repeat split; eexists; simpl; eauto.
  - eexists; (split; [reflexivity|]); repeat split; eexists; simpl; eauto.
  - eexists; (split; [reflexivity|]); repeat split; eexists; simpl; eauto.
Qed.

Lemma lastControls_end (l : list action) (b : bool) :
  lastControls (l ++ [SetControlsDisabled b]) = Some b.
Proof.
  induction l as [|a l IH]; [reflexivity|]. simpl. now rewrite IH.
Qed.

(** The three kinds of turn. *)
Lemma processInput_kinds (stage : Z) (value : string) :
  let input := trim value in
  let shown := [ AddMessage input "user"; ClearInput; SetControlsDisabled true;
                 ShowTypingIndicator ] in
  let r := processInput trim toLowerCase prompts answers server stage value in
  (input = "" /\ r = (stage, [])) \/
  (input <> "" /\
   evaluate toLowerCase answers stage input = Some (Advance, stage + 1) /\
   stage + 1 = Z.of_nat (List.length prompts) /\
   r = (stage + 1, (shown ++ finalReveal)%list)) \/
  (input <> "" /\
   exists geminiInput,
     geminiInput <> "" /\ Substring input geminiInput /\
     r = (fst r, (shown ++ sendToGemini server geminiInput)%list)).
Proof.
  cbv zeta. unfold processInput.
  destruct (String.eqb_spec (trim value) "") as [E|E]; [now left|].
  right.
  assert (Pre : forall a b, Substring (trim value) (a ++ trim value ++ b))
    by (intros a b; now exists a, b).
  destruct (evaluate toLowerCase answers stage (trim value)) as [[[|] stage']|] eqn:V.
  - assert (stage' = stage + 1).
    { unfold evaluate in V.
      destruct ((0 <=? stage) && (stage <? Z.of_nat (List.length answers)));
        [|discriminate].
      destruct (isCorrect _ _); congruence. }
    subst stage'.
    destruct (Z.eqb_spec (stage + 1) (Z.of_nat (List.length prompts))) as [P|P].
    + left. repeat split; trivial.
    + right. split; [exact E|]. eexists. split; [|split; [|reflexivity]].
      * discriminate.
      * apply Pre.
  - right. split; [exact E|]. eexists. split; [|split; [|reflexivity]].
    + discriminate.
    + apply Pre.
  - right. split; [exact E|]. exists (trim value).
    split; [exact E|]. split; [apply Substring_refl | reflexivity].
Qed.

End Client.

(** X16. A turn of the client sends at most one request to the backend.  The
    message it carries is never empty and contains the text as the runtime
    has trimmed it, so the server never rejects it as missing: each
    variant answers it with status 200 or 500, or not at all.  This holds
    whatever [trim] and [toLowerCase] compute. *)
Theorem client_request_is_never_rejected (trim toLowerCase : string -> string)
        (prompts : list string)
        (answers : list (list string)) (server : string -> Script.fetchResult)
        (stage : Z) (value : string) :
  let actions := snd (Script.processInput trim toLowerCase prompts answers server stage value) in
  Script.allFetches actions = [] \/
  exists message,
    Script.allFetches actions = [message] /\
    message <> "" /\
    Substring (trim value) message /\
    forall sender w,
      (AnswersOnce [200; 500] (ServerJs.chat (Some message) sender w) \/
       EndsUnanswered (ServerJs.chat (Some message) sender w)) /\
      (AnswersOnce [200; 500] (Part000.chat (Some message) sender w) \/
       EndsUnanswered (Part000.chat (Some message) sender w)) /\
      (AnswersOnce [200; 500] (Part001.chat (Some message) sender w) \/
       EndsUnanswered (Part001.chat (Some message) sender w)).
Proof.
  cbv zeta.
  destruct (processInput_kinds trim toLowerCase prompts answers server stage value)
    as [[_ ->] | [(_ & _ & _ & ->) | (_ & g & Hg & Sub & ->)]].
  - now left.
  - now left.
  - right. exists g. cbn [snd].
    destruct (sendToGemini_shape server g) as (middle & -> & Hm & _).
    split.
    { rewrite allFetches_app. cbn [Script.allFetches flat_map Script.fetches app].
      fold (Script.allFetches (middle ++ [Script.SetControlsDisabled false])).
      rewrite allFetches_app, Hm. reflexivity. }
    split; [exact Hg|]. split; [exact Sub|].
    intros sender w.
    rewrite ServerJs_chat_shape, Part000_chat_shape, Part001_chat_shape.
    rewrite ServerJs_save_shape, Part000_save_shape, Part001_save_shape.
    split; [|split]; apply chat_text_answers; trivial; intros m w'.
    + apply ServerJs_send_frame.
    + apply Part000_send_frame.
    + apply Part001_send_frame.
Qed.

Lemma client_request_is_never_rejected_witness :
  Script.allFetches
    (snd (Script.processInput AsciiText.trim AsciiText.toLowerCase Script.prompts Script.answers
            (fun _ => Script.NetworkError) 4 "  thank you  ")) = ["thank you"].
Proof.
  destruct (client_request_is_never_rejected AsciiText.trim AsciiText.toLowerCase
              Script.prompts Script.answers
              (fun _ => Script.NetworkError) 4 "  thank you  ")
    as [E | (message & E & _)].
  - discriminate E.
  - reflexivity.
Defined.

(** X17. The controls after a turn whose text the runtime does not trim to
    the empty text.  The turn starts by showing the trimmed text as the
    user's, clearing the field, locking the controls and showing the
    typing indicator.  It ends with the controls enabled, whatever the
    backend answers or fails to answer, unless it is the final reveal:
    that turn shows the image, leaves the controls locked and enables them
    from no timer.  Nothing is said of the typing indicators left on the
    page, which depend on the timers of the start-up. *)
Theorem turn_leaves_page_consistent (trim toLowerCase : string -> string)
        (prompts : list string)
        (answers : list (list string)) (server : string -> Script.fetchResult)
        (stage : Z) (value : string) :
  trim value <> "" ->
  let actions :=
    snd (Script.processInput trim toLowerCase prompts answers server stage value) in
  (exists rest,
      actions = Script.AddMessage (trim value) "user" :: Script.ClearInput
                  :: Script.SetControlsDisabled true
                  :: Script.ShowTypingIndicator :: rest) /\
  lastControls actions = Some (existsb showsImage actions) /\
  existsb enables actions = negb (existsb showsImage actions).
Proof.
  intros Hne. cbv zeta.
  destruct (processInput_kinds trim toLowerCase prompts answers server stage value)
    as [[E _] | [(_ & _ & _ & ->) | (_ & g & _ & _ & ->)]].
  - contradiction.
  - cbn [snd]. split; [eexists; reflexivity|]. repeat split.
  - cbn [snd].
    destruct (sendToGemini_shape server g) as (middle & -> & _ & Hi & He & _).
    split; [eexists; reflexivity|].
    assert (Img : existsb showsImage
                    ([ Script.AddMessage (trim value) "user"; Script.ClearInput;
                       Script.SetControlsDisabled true; Script.ShowTypingIndicator ]
                       ++ Script.Fetch Script.BACKEND_URL g "user"
                       :: middle ++ [Script.SetControlsDisabled false]) = false).
    { cbn [app existsb showsImage orb]. rewrite existsb_app, Hi. reflexivity. }
    rewrite Img. split.
    + change ([ Script.AddMessage (trim value) "user"; Script.ClearInput;
                Script.SetControlsDisabled true; Script.ShowTypingIndicator ]
                ++ Script.Fetch Script.BACKEND_URL g "user"
                :: middle ++ [Script.SetControlsDisabled false])%list
        with (([ Script.AddMessage (trim value) "user"; Script.ClearInput;
                 Script.SetControlsDisabled true; Script.ShowTypingIndicator;
                 Script.Fetch Script.BACKEND_URL g "user" ] ++ middle)
                ++ [Script.SetControlsDisabled false])%list.
      apply lastControls_end.
    + cbn [app existsb enables negb orb]. rewrite existsb_app, He. reflexivity.
Qed.

Lemma turn_leaves_page_consistent_witness :
  lastControls
    (snd (Script.processInput AsciiText.trim AsciiText.toLowerCase
            Script.prompts Script.answers
            (fun _ => Script.NetworkError) 1 "banana")) = Some false /\
  lastControls
    (snd (Script.processInput AsciiText.trim AsciiText.toLowerCase
            Script.prompts Script.answers
            (fun _ => Script.NetworkError) 3 "[final password keyword]")) = Some true.
Proof.
  assert (H1 : AsciiText.trim "banana" <> "") by discriminate.
  assert (H2 : AsciiText.trim "[final password keyword]" <> "") by discriminate.
  split.
  - destruct (turn_leaves_page_consistent AsciiText.trim AsciiText.toLowerCase
                Script.prompts Script.answers
                (fun _ => Script.NetworkError) 1 "banana" H1) as (_ & L & _).
    exact L.
  - destruct (turn_leaves_page_consistent AsciiText.trim AsciiText.toLowerCase
                Script.prompts Script.answers
                (fun _ => Script.NetworkError) 3 "[final password keyword]" H2)
      as (_ & L & _).
    exact L.
Defined.

Section Sessions.

Import Script.

Variable trim : string -> string.
Variable toLowerCase : string -> string.
Variable prompts : list string.
Variable answers : list (list string).
Variable server : string -> fetchResult.

Let K : Z := Z.of_nat (List.length answers).

Lemma stages_head (stage : Z) (values : list string) :
  exists rest, stages trim toLowerCase prompts answers server stage values = stage :: rest.
Proof. destruct values; simpl; eauto. Qed.


Lemma next_stage_bounds (stage : Z) (value : string) :
  0 <= stage <= K ->
  stage <= fst (processInput trim toLowerCase prompts answers server stage value) <= K.
Proof.
  intros Hs.
  pose proof (processInput_step trim toLowerCase prompts answers server stage value) as Hstep.
  cbv zeta in Hstep.
  destruct Hstep as [[[_ [Hlt _]] ->] | [_ ->]]; unfold K in *; lia.
Qed.

Lemma stages_monotone (values : list string) :
  forall stage i j x y,
    0 <= stage <= K -> (i <= j)%nat ->
    nth_error (stages trim toLowerCase prompts answers server stage values) i = Some x ->
    nth_error (stages trim toLowerCase prompts answers server stage values) j = Some y ->
    x <= y.
Proof.
  induction values as [|value rest IH]; intros stage i j x y Hs Hij Hx Hy.
  - destruct i as [|[|i]], j as [|[|j]]; simpl in *; try discriminate.
    injection Hx as <-. injection Hy as <-. lia.
  - destruct i as [|i].
    + simpl in Hx. injection Hx as <-.
      pose proof (stages_bounds trim toLowerCase prompts answers server (value :: rest) stage Hs) as F.
      rewrite Forall_forall in F.
      apply nth_error_In in Hy. apply F in Hy. lia.
    + destruct j as [|j]; [lia|]. simpl in Hx, Hy.
      pose proof (next_stage_bounds stage value Hs) as Hn.
      eapply (IH _ i j x y); [|lia|exact Hx|exact Hy]. lia.
Qed.

(** Turn [i] of a session: the stage it starts from, its input, its
    actions and the stage it leaves. *)
Lemma turns_nth (values : list string) :
  forall stage i actions,
    nth_error (turns trim toLowerCase prompts answers server stage values) i = Some actions ->
    exists s value,
      nth_error (stages trim toLowerCase prompts answers server stage values) i = Some s /\
      nth_error values i = Some value /\
      actions = snd (processInput trim toLowerCase prompts answers server s value) /\
      nth_error (stages trim toLowerCase prompts answers server stage values) (S i) =
        Some (fst (processInput trim toLowerCase prompts answers server s value)).
Proof.
  induction values as [|value rest IH]; intros stage i actions H.
  - destruct i; discriminate.
  - destruct i as [|i].
    + simpl in H. injection H as <-. exists stage, value.
      repeat split. simpl.
      destruct (stages_head (fst (processInput trim toLowerCase prompts answers server stage value)) rest)
        as [tl ->]. reflexivity.
    + simpl in H. destruct (IH _ i actions H) as (s & v & Hs & Hv & Ha & Hn).
      exists s, v. repeat split; trivial.
Qed.

(** A turn shows the image exactly when it moves the stage up to the
    number of prompts. *)
Lemma showsImage_turn (stage : Z) (value : string) :
  existsb showsImage (snd (processInput trim toLowerCase prompts answers server stage value)) = true ->
  fst (processInput trim toLowerCase prompts answers server stage value) = stage + 1 /\
  stage + 1 = Z.of_nat (List.length prompts).
Proof.
  destruct (processInput_kinds trim toLowerCase prompts answers server stage value)
    as [[_ ->] | [(_ & _ & P & ->) | (_ & g & _ & _ & ->)]]; cbn [snd fst].
  - discriminate.
  - intros _. now split.
  - destruct (sendToGemini_shape server g) as (middle & -> & _ & Hi & _).
    cbn [app existsb showsImage orb]. rewrite existsb_app, Hi. discriminate.
Qed.

End Sessions.

(** X18. A stage whose list of accepted answers is empty is never passed,
    whatever is typed; a stage that lists among its accepted answers one
    that [toLowerCase] folds to the empty text (the empty string is the
    one such answer in JavaScript) is passed by every text that the
    runtime does not trim to the empty text.  This holds whatever [trim]
    and [toLowerCase] compute. *)
Theorem gate_edge_tables (trim toLowerCase : string -> string)
        (prompts : list string) (answers : list (list string))
        (server : string -> Script.fetchResult) (stage : Z) :
  (nth (Z.to_nat stage) answers [] = [] ->
   forall values,
     Forall (fun s => s = stage)
            (Script.stages trim toLowerCase prompts answers server stage values)) /\
  (0 <= stage < Z.of_nat (List.length answers) ->
   (exists keyword,
       In keyword (nth (Z.to_nat stage) answers []) /\
       toLowerCase keyword = "") ->
   forall value,
     trim value <> "" ->
     fst (Script.processInput trim toLowerCase prompts answers server stage value) = stage + 1).
Proof.
  split.
  - intros Hnil values. induction values as [|value rest IH]; simpl.
    + repeat constructor.
    + assert (E : fst (Script.processInput trim toLowerCase prompts answers server stage value) = stage).
      { pose proof (processInput_step trim toLowerCase prompts answers server stage value) as Hstep.
        cbv zeta in Hstep.
        destruct Hstep as [[(_ & _ & (keyword & Hin & _)) _] | [_ E]]; [|exact E].
        rewrite Hnil in Hin. contradiction. }
      rewrite E. constructor; [reflexivity | exact IH].
  - intros Hs (keyword & Hin & Hk) value Hne.
    rewrite processInput_stage.
    destruct (String.eqb_spec (trim value) ""); [contradiction|].
    rewrite evaluate_accepted; trivial.
    exists keyword. split; [exact Hin | rewrite Hk; apply Substring_empty].
Qed.

Lemma gate_edge_tables_witness :
  Forall (fun s => s = 0)
         (Script.stages AsciiText.trim AsciiText.toLowerCase
            Script.prompts [[]; ["bunker"]]
            (fun _ => Script.NetworkError) 0 ["start"; "bunker"]) /\
  fst (Script.processInput AsciiText.trim AsciiText.toLowerCase
         Script.prompts [[""]; ["bunker"]]
         (fun _ => Script.NetworkError) 0 "anything") = 1.
Proof.
  destruct (gate_edge_tables AsciiText.trim AsciiText.toLowerCase
              Script.prompts [[]; ["bunker"]]
              (fun _ => Script.NetworkError) 0) as [A _].
  destruct (gate_edge_tables AsciiText.trim AsciiText.toLowerCase
              Script.prompts [[""]; ["bunker"]]
              (fun _ => Script.NetworkError) 0) as [_ B].
  split.
  - apply A. reflexivity.
  - apply B; [simpl; lia | exists ""; simpl; auto | discriminate].
Defined.




(** X22. The final image is shown in at most one turn of a session, whatever
    the tables and the inputs. *)
Theorem reveal_at_most_once (trim toLowerCase : string -> string)
        (prompts : list string) (answers : list (list string))
        (server : string -> Script.fetchResult) (values : list string)
        (i j : nat) (first second : list Script.action) :
  nth_error (turns trim toLowerCase prompts answers server Script.initialStage values) i = Some first ->
  nth_error (turns trim toLowerCase prompts answers server Script.initialStage values) j = Some second ->
  existsb showsImage first = true ->
  existsb showsImage second = true ->
  i = j.
Proof.
  intros Hi Hj Si Sj.
  destruct (turns_nth trim toLowerCase prompts answers server values _ i first Hi)
    as (s & v & Hs & _ & -> & Hn).
  destruct (turns_nth trim toLowerCase prompts answers server values _ j second Hj)
    as (s' & v' & Hs' & _ & -> & Hn').
  apply showsImage_turn in Si, Sj. destruct Si as [Ei Pi], Sj as [Ej Pj].
  rewrite Ei in Hn. rewrite Ej in Hn'.
  assert (H0 : 0 <= Script.initialStage <= Z.of_nat (List.length answers))
    by (unfold Script.initialStage; lia).
  destruct (Nat.lt_trichotomy i j) as [L | [E | L]]; [|exact E|]; exfalso.
  - pose proof (stages_monotone trim toLowerCase prompts answers server values _ (S i) j _ _
                  H0 L Hn Hs'). lia.
  - pose proof (stages_monotone trim toLowerCase prompts answers server values _ (S j) i _ _
                  H0 L Hn' Hs). lia.
Qed.

Lemma reveal_at_most_once_witness :
  existsb showsImage
    (nth 3 (turns AsciiText.trim AsciiText.toLowerCase Script.prompts Script.answers (fun _ => Script.NetworkError)
              Script.initialStage
              ["start"; "[coffee shop alt]"; "[movie title alt]";
               "[final password keyword]"]) []) = true /\
  3%nat = 3%nat.
Proof.
  split; [reflexivity|].
  eapply (reveal_at_most_once AsciiText.trim AsciiText.toLowerCase
            Script.prompts Script.answers
            (fun _ => Script.NetworkError)
            ["start"; "[coffee shop alt]"; "[movie title alt]";
             "[final password keyword]"] 3 3); reflexivity.
Defined.

(** ** Case and white space on ASCII text *)

Lemma string_app_nil_r (s : string) : s ++ "" = s.
Proof. induction s as [|c s IH]; simpl; [reflexivity | now rewrite IH]. Qed.

Section AsciiFacts.

Import AsciiText.

Lemma toLowerCase_app (a b : string) :
  toLowerCase (a ++ b) = toLowerCase a ++ toLowerCase b.
Proof.
  induction a as [|c a IH]; simpl; [reflexivity | now rewrite IH].
Qed.

Lemma reverse_app (a b : string) : reverse (a ++ b) = reverse b ++ reverse a.
Proof.
  induction a as [|c a IH]; simpl.
  - now rewrite string_app_nil_r.
  - now rewrite IH, string_app_assoc.
Qed.

Lemma allWhite_app (a b : string) :
  allWhite (a ++ b) = allWhite a && allWhite b.
Proof.
  induction a as [|c a IH]; simpl; [reflexivity|].
  now rewrite IH, andb_assoc.
Qed.

Lemma allWhite_reverse (s : string) : allWhite (reverse s) = allWhite s.
Proof.
  induction s as [|c s IH]; simpl; [reflexivity|].
  rewrite allWhite_app, IH. simpl. rewrite andb_true_r. apply andb_comm.
Qed.

Lemma trimStart_white (p s : string) :
  allWhite p = true -> trimStart (p ++ s) = trimStart s.
Proof.
  induction p as [|c p IH]; simpl; [reflexivity|].
  intros [Hc Hp]%andb_true_iff. rewrite Hc. now apply IH.
Qed.

Lemma trimEnd_white (s q : string) :
  allWhite q = true -> trimEnd (s ++ q) = trimEnd s.
Proof.
  intros H. unfold trimEnd. rewrite reverse_app, trimStart_white; trivial.
  now rewrite allWhite_reverse.
Qed.

Lemma trim_white_end (s q : string) :
  allWhite q = true -> trim (s ++ q) = trim s.
Proof.
  intros H. unfold trim. induction s as [|c s IH].
  - simpl. rewrite <- (string_app_nil_r q), trimStart_white; trivial.
  - simpl. destruct (isWhiteSpace c); [exact IH|].
    now apply (trimEnd_white (String c s) q).
Qed.

Lemma trim_padding (p s q : string) :
  allWhite p = true -> allWhite q = true -> trim (p ++ s ++ q) = trim s.
Proof.
  intros Hp Hq. rewrite <- (trim_white_end s q Hq).
  unfold trim. now rewrite trimStart_white.
Qed.

Lemma isWhiteSpace_lower (c : ascii) : isWhiteSpace (lowerChar c) = isWhiteSpace c.
Proof. destruct c as [[] [] [] [] [] [] [] []]; reflexivity. Qed.

Lemma trimStart_lower (s : string) :
  trimStart (toLowerCase s) = toLowerCase (trimStart s).
Proof.
  induction s as [|c s IH]; simpl; [reflexivity|].
  rewrite isWhiteSpace_lower. now destruct (isWhiteSpace c).
Qed.

Lemma reverse_lower (s : string) :
  reverse (toLowerCase s) = toLowerCase (reverse s).
Proof.
  induction s as [|c s IH]; simpl; [reflexivity|].
  now rewrite IH, toLowerCase_app.
Qed.

Lemma trim_lower (s : string) : trim (toLowerCase s) = toLowerCase (trim s).
Proof.
  unfold trim, trimEnd.
  now rewrite trimStart_lower, reverse_lower, trimStart_lower, reverse_lower.
Qed.

Lemma lower_empty (s : string) : toLowerCase s = "" <-> s = "".
Proof. destruct s; simpl; split; congruence. Qed.

End AsciiFacts.

(** X20. The outcome of a turn depends neither on the case of the text nor on
    white space around it: two texts that differ only in this leave the
    same stage behind.  Case and white space are those of ASCII, and the
    built-ins are taken as they are on ASCII text. *)
Theorem turn_ignores_case_and_padding (prompts : list string)
        (answers : list (list string)) (server : string -> Script.fetchResult)
        (stage : Z) (before after value value' : string) :
  AsciiText.allWhite before = true ->
  AsciiText.allWhite after = true ->
  AsciiText.toLowerCase value' = AsciiText.toLowerCase value ->
  fst (Script.processInput AsciiText.trim AsciiText.toLowerCase
         prompts answers server stage (before ++ value' ++ after))
  = fst (Script.processInput AsciiText.trim AsciiText.toLowerCase
           prompts answers server stage value).
Proof.
  intros Hb Ha Hc.
  rewrite !processInput_stage, (trim_padding before value' after Hb Ha).
  assert (L : AsciiText.toLowerCase (AsciiText.trim value')
              = AsciiText.toLowerCase (AsciiText.trim value))
    by (now rewrite <- !trim_lower, Hc).
  assert (E : (AsciiText.trim value' =? "")%string
              = (AsciiText.trim value =? "")%string).
  { destruct (String.eqb_spec (AsciiText.trim value') ""),
             (String.eqb_spec (AsciiText.trim value) "");
      trivial; exfalso.
    - apply n. apply lower_empty. rewrite <- L. now apply lower_empty.
    - apply n. apply lower_empty. rewrite L. now apply lower_empty. }
  rewrite E. destruct (AsciiText.trim value =? "")%string; [reflexivity|].
  unfold Script.evaluate, Script.isCorrect. now rewrite L.
Qed.

Lemma turn_ignores_case_and_padding_witness :
  fst (Script.processInput AsciiText.trim AsciiText.toLowerCase
         Script.prompts Script.answers
         (fun _ => Script.NetworkError) 0 ("   " ++ "StArT" ++ "  ")) = 1.
Proof.
  rewrite (turn_ignores_case_and_padding Script.prompts Script.answers
             (fun _ => Script.NetworkError) 0 "   " "  " "start" "StArT"
             eq_refl eq_refl eq_refl).
  reflexivity.
Defined.

(** X11. The cost of a chat request, whatever happens: at most three calls of
    the upstream service, and at most 3 seconds of sleep in [server.js]
    and the first SQLite variant, 7 seconds in the second. *)
Theorem chat_request_cost (message sender : option string) (w : world) :
  ((attempts (events (ServerJs.chat message sender w)) <= 3)%nat /\
   0 <= totalSleep (events (ServerJs.chat message sender w)) <= 3000) /\
  ((attempts (events (Part000.chat message sender w)) <= 3)%nat /\
   0 <= totalSleep (events (Part000.chat message sender w)) <= 3000) /\
  ((attempts (events (Part001.chat message sender w)) <= 3)%nat /\
   0 <= totalSleep (events (Part001.chat message sender w)) <= 7000).
Proof.
  assert (A : forall text w',
             (attempts (events (ServerJs.sendMessageWithRetry text 3 w')) <= 3)%nat /\
             0 <= totalSleep (events (ServerJs.sendMessageWithRetry text 3 w')) <= 3000).
  { intros text w'. unfold ServerJs.sendMessageWithRetry.
    destruct (ServerJs_loop_run text 3 (Z.to_nat 3) 0 w') as [Ha _].
    destruct (ServerJs_loop_sleep text 3 (Z.to_nat 3) 0 w' eq_refl (Z.le_refl 0))
      as [Hs _].
    split; [exact Ha | exact Hs]. }
  assert (B : forall text w',
             (attempts (events (Part001.sendMessageWithRetry text 3 w')) <= 3)%nat /\
             0 <= totalSleep (events (Part001.sendMessageWithRetry text 3 w')) <= 7000).
  { intros text w'. unfold Part001.sendMessageWithRetry.
    destruct (Part001_loop_run text 3 (Z.to_nat 3) 0 w') as [Ha _].
    destruct (Part001_loop_sleep text 3 (Z.to_nat 3) 0 w' (Z.le_refl 0)) as [Hs _].
    split; [exact Ha | exact Hs]. }
  rewrite ServerJs_chat_shape, Part000_chat_shape, Part001_chat_shape.
  rewrite ServerJs_save_shape, Part000_save_shape, Part001_save_shape.
  split; [|split].
  - destruct (chat_cost "Database connection not established." "insert"
                ServerJs.sendMessageWithRetry (fun _ => "User")
                "No message provided." "Server Error during Chat:" "System Error"
                (fun text => "Failed to get Gemini response for: " ++ text)
                "Internal server error. Please try again." message sender w)
      as [[-> ->] | (text & w' & -> & ->)]; [split; lia | apply A].
  - destruct (chat_cost "Database connection not established." "run"
                Part000.sendMessageWithRetry (fun _ => "User")
                "No message provided." "Gemini API Error:" "System Error"
                (fun text => "Failed to get Gemini response for: " ++ text)
                "Failed to communicate with the AI model. Try refreshing the page."
                message sender w)
      as [[-> ->] | (text & w' & -> & ->)]; [split; lia|].
    rewrite Part000_send_eq. apply A.
  - destruct (chat_cost "Database not initialized." "run"
                Part001.sendMessageWithRetry Part001.senderOrUser
                "Message is required." "Chat Error:" "System"
                (fun _ => "Gemini failure during reply.")
                "AI model failed. Try again." message sender w)
      as [[-> ->] | (text & w' & -> & ->)]; [split; lia | apply B].
Qed.

Lemma relay_leaves_store_alone_witness :
  queries (events (Part001.sendMessageWithRetry "start" 3
                     (failing error503 (connected (quietWorld ""))))) = [] /\
  db (final (Part001.sendMessageWithRetry "start" 3
               (failing error503 (connected (quietWorld ""))))) = Some [].
Proof.
  destruct (relay_leaves_store_alone "start" 3
              (failing error503 (connected (quietWorld ""))))
    as (_ & _ & F & Q).
  split; [exact (proj1 (Q _ F))|].
  destruct F as (_ & D & _). exact D.
Defined.
